(** * kdbpy.compute.core: translation of blaze expressions to q

    A shallow embedding of [kdbpy/compute/core.py], the rule table that
    turns a blaze expression node and its already translated operands into
    a q abstract syntax tree, together with the table-prefix substitution
    pass [desubs] and the literal coercion [qify]. *)

From Stdlib Require Import String Ascii List ZArith Lia Bool.
Import ListNotations.
Open Scope string_scope.
Open Scope Z_scope.

Set Implicit Arguments.
Set Warnings "-register-all".

(** ** Python exceptions and the error monad of the rules *)

Inductive exn : Type :=
| ValueError (msg : string)
| NotImplementedError (msg : string)
| AssertionError (msg : string)
| KeyError (key : string)
| TypeError
| AttributeError (attr : string).

Inductive result (A : Type) : Type :=
| Ok (a : A)
| Raise (e : exn).
Arguments Ok {A} a.
Arguments Raise {A} e.

Definition bind {A B : Type} (m : result A) (k : A -> result B) : result B :=
  match m with
  | Ok a => k a
  | Raise e => Raise e
  end.

Declare Scope py_scope.
Notation "x <- m ;; k" := (bind m (fun x => k))
  (at level 61, m at next level, right associativity) : py_scope.
Open Scope py_scope.

(** The spec files every synchronous rejection of a rule under the single
    heading UnsupportedOperation; the rules raise it as one of three
    Python exceptions. *)
Definition UnsupportedOperation (e : exn) : Prop :=
  match e with
  | ValueError _ | NotImplementedError _ | AssertionError _ => True
  | _ => False
  end.

(** ** The q abstract syntax tree *)

Module q.

(** Modelled from the spec: the value types of [kdbpy/q.py], which is not
    among the sources.  [Atom] is a scalar literal known by its rendered
    text, [Symbol] a named reference (an [Atom] subclass, possibly dotted
    as table.column), [List] an ordered heterogeneous sequence, [Dict] an
    ordered mapping given by its list of pairs (iterating it walks its
    keys, as for any Python mapping), and [select] the four-slot node
    child, constraints, grouper, aggregates.  [Str], [Num] and [Bool] are
    the host strings, numbers and [q.Bool] values that the rules place
    inside a q tree as they are. *)
Inductive Expr : Type :=
| Atom (s : string)
| Symbol (s : string)
| Str (s : string)
| Num (n : Z)
| Bool (b : bool)
| List (items : list Expr)
| Dict (items : list (Expr * Expr))
| select (child constraints grouper aggregates : Expr).

(** Modelled from the spec: iterating a [select] yields the question mark
    that opens its rendering and then the four slots (the comment in
    [desubs]); a [select] is a [List] of these five items. *)
Definition select_items (child constraints grouper aggregates : Expr) : list Expr :=
  [Str "?"; child; constraints; grouper; aggregates].

Definition is_select (x : Expr) : bool :=
  match x with
  | select _ _ _ _ => true
  | _ => false
  end.

Definition is_atom (x : Expr) : bool :=
  match x with
  | Atom _ | Symbol _ => true
  | _ => false
  end.

(** Modelled from the spec: the builder functions of [kdbpy/q.py] (not
    among the sources).  An operator application is a [List] headed by the
    operator's [Atom], as in the docstring of [get]; the heads are q's own
    names.  A host integer handed to a builder is a [Num]. *)
Definition and_ (a b : Expr) : Expr := List [Atom "&"; a; b].
Definition add (a b : Expr) : Expr := List [Atom "+"; a; b].
Definition sub (a b : Expr) : Expr := List [Atom "-"; a; b].
Definition mod_ (a b : Expr) : Expr := List [Atom "mod"; a; b].
Definition long (a : Expr) : Expr := List [Atom "$"; Symbol "long"; a].
Definition til (a : Expr) : Expr := List [Atom "til"; a].
Definition count (a : Expr) : Expr := List [Atom "count"; a].
Definition take (n data : Expr) : Expr := List [Atom "#"; n; data].
Definition partake (data index : Expr) : Expr := List [Atom "partake"; data; index].
Definition symlist (names : list string) : Expr := List (map Symbol names).

(** Modelled from the spec: the two further builders of [kdbpy/q.py] that
    the [Microsecond] rule calls, in the same shape as the ones above. *)
Definition floor (a : Expr) : Expr := List [Atom "floor"; a].
Definition div (a b : Expr) : Expr := List [Atom "div"; a; b].

End q.

(** ** Symbol substitution *)

(** [len(x)] and [x[0]] for the two kinds of value [get] is applied to, a
    [q.List] and a [q.select] with its five items. *)
Definition len (x : q.Expr) : nat :=
  match x with
  | q.List items => length items
  | q.select c cs g a => length (q.select_items c cs g a)
  | _ => 0
  end.

Definition first_item (x : q.Expr) : q.Expr :=
  match x with
  | q.List (x0 :: _) => x0
  | q.select c cs g a => hd x (q.select_items c cs g a)
  | _ => x
  end.

(** [get]: the single element of a one-element list, else the list. *)
Definition get (x : q.Expr) : q.Expr :=
  if (len x =? 1)%nat then first_item x else x.

(** [s.split('.', 1)] when the string holds a dot: the text before the
    first dot and the text after it. *)
Fixpoint split_dot (s : string) : option (string * string) :=
  match s with
  | EmptyString => None
  | String c rest =>
      if Ascii.eqb c "."%char then Some (EmptyString, rest)
      else match split_dot rest with
           | Some (hd, tl) => Some (String c hd, tl)
           | None => None
           end
  end.

(** [compute_atom]: [type(atom)(second(split))] when the name is dotted
    and its first component is [symbol], else the atom itself. *)
Definition compute_atom (atom : q.Expr) (symbol : string) : q.Expr :=
  match atom with
  | q.Atom s =>
      match split_dot s with
      | Some (hd, tl) => if String.eqb hd symbol then q.Atom tl else atom
      | None => atom
      end
  | q.Symbol s =>
      match split_dot s with
      | Some (hd, tl) => if String.eqb hd symbol then q.Symbol tl else atom
      | None => atom
      end
  | _ => atom
  end.

(** What the loop of [_desubs] yields for one element [sube]; [rec] is
    [desubs] at the scope being removed.  A nested [select] is a [q.List]
    for [isinstance] and comes back as a plain list of its five items. *)
Definition yield_sube (rec : q.Expr -> q.Expr) (t : string) (sube : q.Expr) : q.Expr :=
  match sube with
  | q.Atom _ | q.Symbol _ => compute_atom sube t
  | q.List items => q.List (map rec items)
  | q.select c cs g a =>
      (* desubs('?', t) is the string itself *)
      q.List [get (q.List [q.Str "?"]); rec c; rec cs; rec g; rec a]
  | q.Dict items => q.Dict (map (fun kv => (rec (fst kv), rec (snd kv))) items)
  | _ => sube
  end.

(** [_desubs], with the generator read as the list of what it yields. *)
Definition _desubs (rec : q.Expr -> q.Expr) (expr : q.Expr) (t : string) : list q.Expr :=
  match expr with
  | q.Atom _ | q.Symbol _ => [compute_atom expr t]
  | q.Str _ | q.Num _ | q.Bool _ => [expr]
  | q.List items => map (yield_sube rec t) items
  | q.Dict items =>
      (* the loop over a dict walks its keys *)
      map (fun kv => yield_sube rec t (fst kv)) items
  | q.select c cs g a =>
      [yield_sube rec t (q.Str "?"); yield_sube rec t c; yield_sube rec t cs;
       yield_sube rec t g; yield_sube rec t a]
  end.

(** [desubs]: a [select] is rebuilt from the results after the question
    mark, anything else becomes a [q.List]; [get] unwraps a single result. *)
Fixpoint desubs (expr : q.Expr) (t : string) {struct expr} : q.Expr :=
  let result := _desubs (fun s => desubs s t) expr t in
  get (match expr, result with
       | q.select _ _ _ _, [_; c; cs; g; a] => q.select c cs g a
       | _, _ => q.List result
       end).

(** ** What the integer primitives of q compute *)

Inductive value : Type :=
| VInt (z : Z)
| VInts (zs : list Z).

Definition til_value (n : Z) : list Z :=
  map Z.of_nat (seq 0 (Z.to_nat n)).

Definition binop_value (op : string) (x y : value) : option value :=
  match x, y with
  | VInt a, VInt b =>
      if String.eqb op "&" then Some (VInt (Z.min a b))
      else if String.eqb op "+" then Some (VInt (a + b))
      else if String.eqb op "-" then Some (VInt (a - b))
      else if String.eqb op "mod" then Some (VInt (a mod b))
      else None
  | VInt a, VInts bs =>
      if String.eqb op "+" then Some (VInts (map (Z.add a) bs)) else None
  | _, _ => None
  end.

(** Modelled from the spec: the meaning of the arithmetic the rules emit.
    q itself runs in the remote database; the rules rely on [&] being the
    minimum of two numbers (comment in the [Head] rule), on [til n] being
    the integers from 0 up to [n - 1], on [+] adding a number to each
    element of a list, and on [`long$] leaving an integer as it is.
    Everything else (row counts, columns) is looked up in [rho]. *)
Fixpoint qeval (rho : q.Expr -> option value) (e : q.Expr) {struct e} : option value :=
  match e with
  | q.Num n => Some (VInt n)
  | q.List [q.Atom op; a] =>
      if String.eqb op "til" then
        match qeval rho a with
        | Some (VInt n) => if n <? 0 then None else Some (VInts (til_value n))
        | _ => None
        end
      else rho e
  | q.List [q.Atom op; a; b] =>
      if String.eqb op "$" then
        match a with
        | q.Symbol "long" => qeval rho b
        | _ => rho e
        end
      else if (String.eqb op "&") || (String.eqb op "+") || (String.eqb op "-") || (String.eqb op "mod") then
        match qeval rho a, qeval rho b with
        | Some x, Some y => binop_value op x y
        | _, _ => None
        end
      else rho e
  | _ => rho e
  end.

(** ** The blaze expression nodes the rules dispatch on *)

Module blaze.

(** One item of [Slice.index]: an integer or a Python [slice]. *)
Inductive index : Type :=
| Int (i : Z)
| slice (start stop step : option Z).

(** The node kinds of [blaze.expr] used below, each with the attributes its
    rule reads.  blaze is an external library; [Slice] carries
    [isrecord(expr.dshape)] as a flag. *)
Inductive Expr : Type :=
| Symbol (name dshape : string)
| Reduction (symbol : string) (child : Expr) (axis : list Z)
| nelements (child : Expr) (axis : list Z)
| Minute (child : Expr) (attr : string)
| Join (lhs rhs : Expr) (on_left on_right : list string) (how : string)
| By (grouper apply : Expr)
| Head (child : Expr) (n : Z)
| Slice (child : Expr) (index : list index) (isrecord : bool).

(** [expr._child] of the one-operand nodes. *)
Definition _child (expr : Expr) : option Expr :=
  match expr with
  | Reduction _ c _ | nelements c _ | Minute c _ | Head c _ | Slice c _ _ => Some c
  | Symbol _ _ | Join _ _ _ _ _ | By _ _ => None
  end.

(** The [nrows] property of an expression: [nelements] over axis [(0,)]. *)
Definition nrows (expr : Expr) : Expr := nelements expr [0].

End blaze.

(** ** Attributes of q nodes read by the rules *)

(** [x.s]: the name of an [Atom] or [Symbol] (read by [compute_atom], by
    the [By] rule and by the count rule); other nodes have no such
    attribute. *)
Definition attr_s (x : q.Expr) : result string :=
  match x with
  | q.Atom s | q.Symbol s => Ok s
  | _ => Raise (AttributeError "s")
  end.

(** [x.aggregates]: the fourth slot of a [select]. *)
Definition attr_aggregates (x : q.Expr) : result q.Expr :=
  match x with
  | q.select _ _ _ aggregates => Ok aggregates
  | _ => Raise (AttributeError "aggregates")
  end.

(** ** Slicing *)

(** A Python value that is either a host integer or a q expression, as
    [start] and [stop] are inside [compute_slice]. *)
Inductive intq : Type :=
| PInt (i : Z)
| PQ (e : q.Expr).

(** [x or default] for an optional integer: [None] and [0] are both
    false. *)
Definition py_or (x : option Z) (default : intq) : intq :=
  match x with
  | None => default
  | Some v => if v =? 0 then default else PInt v
  end.

(** [x < 0]: for a q expression the comparison is Python 2's default
    ordering of an object against a number, under which every number is
    the smaller, so the test is false. *)
Definition lt0 (x : intq) : bool :=
  match x with
  | PInt v => v <? 0
  | PQ _ => false
  end.

Definition as_q (x : intq) : q.Expr :=
  match x with
  | PInt v => q.Num v
  | PQ e => e
  end.

(** [compute_slice] for an integer index and for a [slice]. *)
Definition compute_slice (index : blaze.index) (child nrows : q.Expr)
    (isrecord : bool) : q.Expr :=
  match index with
  | blaze.Int i =>
      let index := if i <? 0 then q.add (q.Num i) nrows else q.Num i in
      let qexpr := q.List [child; index] in
      if negb isrecord then qexpr else q.List [q.Str ",:"; qexpr]
  | blaze.slice istart istop _ =>
      let start := py_or istart (PInt 0) in
      let stop := py_or istop (PQ nrows) in
      let start := if lt0 start then PQ (q.add (as_q start) nrows) else start in
      let stop := if lt0 stop then PQ (q.add (as_q stop) nrows) else stop in
      q.List [q.Str "@"; child;
              q.add (as_q start) (q.til (q.sub (as_q stop) (as_q start)))]
  end.

(** ** The rule table *)

(** [==] on tuples of integers and on lists of column names. *)
Definition axis_eqb (a b : list Z) : bool :=
  if list_eq_dec Z.eq_dec a b then true else false.

Definition names_eqb (a b : list string) : bool :=
  if list_eq_dec string_dec a b then true else false.

Section Rules.

(** What the rules only call or look up: blaze's recursive [compute], the
    bottom-up driver; [expr._name]; the table [q.unops]; indexing
    [data[name]] of a q node, which may raise; and the attributes
    [is_partitioned] and [fields] of a q node ([getattr(data, 'fields',
    ())]). *)
Variable compute : blaze.Expr -> q.Expr -> result q.Expr.
Variable _name : blaze.Expr -> string.
Variable unops : string -> option (q.Expr -> q.Expr).
Variable getitem : q.Expr -> string -> result q.Expr.
Variable is_partitioned : q.Expr -> bool.
Variable fields : q.Expr -> list string.

(** [nrows(expr, data)]. *)
Definition nrows (expr : blaze.Expr) (data : q.Expr) : result q.Expr :=
  match blaze._child expr with
  | Some child => compute (blaze.nrows child) data
  | None => Raise (AttributeError "_child")
  end.

(** [compute_up] on one translated operand: the rules for [Reduction],
    [Minute], [By], [Head] and [Slice]; no rule is registered here for the
    other kinds of [blaze.Expr]. *)
Definition compute_up (expr : blaze.Expr) (data : q.Expr) : result q.Expr :=
  match expr with
  | blaze.Reduction symbol _ axis =>
      if negb (axis_eqb axis [0]) then
        Raise (ValueError "Axis keyword arugment on reductions not supported")
      else
        match unops symbol with
        | Some op => Ok (op data)
        | None => Raise (KeyError symbol)
        end
  | blaze.Minute _ attr =>
      m <- getitem data attr ;;
      Ok (q.mod_ (q.long m) (q.Num 60))
  | blaze.By grouper apply =>
      let (child, constraints) :=
        match data with
        | q.select child constraints _ _ => (child, constraints)
        | _ => (data, q.List [])
        end in
      g <- compute grouper child ;;
      let grouper := q.Dict [(q.Symbol (_name grouper), g)] in
      applied <- compute apply child ;;
      aggregates <- attr_aggregates applied ;;
      let select := q.select child (q.List [constraints]) grouper aggregates in
      s <- attr_s child ;;
      Ok (desubs select s)
  | blaze.Head _ n =>
      rowcount <- nrows expr data ;;
      let final_index := q.and_ (q.Num n) rowcount in
      if is_partitioned data then Ok (q.partake data (q.til final_index))
      else Ok (q.take final_index data)
  | blaze.Slice _ index isrecord =>
      match index with
      | [index] =>
          rowcount <- nrows expr data ;;
          Ok (compute_slice index data rowcount isrecord)
      | _ => Raise (AssertionError "only single slice allowed")
      end
  | _ => Raise (NotImplementedError "Could not find signature for compute_up")
  end.

(** [compute_up] on two translated operands: the [Join] rule. *)
Definition compute_up2 (expr : blaze.Expr) (lhs rhs : q.Expr) : result q.Expr :=
  match expr with
  | blaze.Join _ _ on_left on_right how =>
      if negb (how =? "inner")%string then
        Raise (NotImplementedError "only inner joins supported")
      else if negb (names_eqb on_left on_right) then
        Raise (NotImplementedError "can only join on same named columns")
      else Ok (q.List [q.Str "ej"; q.symlist on_left; lhs; rhs])
  | _ => Raise (NotImplementedError "Could not find signature for compute_up")
  end.

(** [compute_down] for [nelements]. *)
Definition compute_down (expr : blaze.Expr) (data : q.Expr) : result q.Expr :=
  match expr with
  | blaze.nelements _ axis =>
      if negb (axis_eqb axis [0]) then
        Raise (ValueError "axis == 1 not supported on record types")
      else if negb (match fields data with [] => true | _ => false end)
              && negb (q.is_select data) then
        s <- attr_s data ;;
        Ok (q.count (q.Symbol s))
      else Ok (q.count data)
  | _ => Raise (NotImplementedError "Could not find signature for compute_down")
  end.

End Rules.

(** ** Literal coercion *)

(** [datetime.date], and [datetime.datetime] as [pd.Timestamp] extends it
    (a plain [datetime] has [nanosecond = 0]). *)
Record date : Type := mkdate { year : nat; month : nat; day : nat }.

Record datetime : Type := mkdatetime {
  date_of : date;
  hour : nat;
  minute : nat;
  second : nat;
  microsecond : nat;
  nanosecond : nat
}.

Definition digit (n : nat) : ascii := ascii_of_nat (48 + n mod 10).

(** A number in [width] decimal digits, padded with zeros on the left, as
    [strftime] renders the fields of a date. *)
Fixpoint zpad (width n : nat) : string :=
  match width with
  | O => ""
  | S w => zpad w (n / 10) ++ String (digit n) ""
  end.

(** The text of ['%Y.%m.%d'] for a year of four digits. *)
Definition date_text (d : date) : string :=
  zpad 4 (year d) ++ "." ++ zpad 2 (month d) ++ "." ++ zpad 2 (day d).

(** The text of ['%Y.%m.%dD%H:%M:%S.%f000'] for a year of four digits. *)
Definition datetime_text (d : datetime) : string :=
  date_text (date_of d) ++ "D" ++ zpad 2 (hour d) ++ ":" ++
  zpad 2 (minute d) ++ ":" ++ zpad 2 (second d) ++ "." ++
  zpad 6 (microsecond d) ++ "000".

(** [strftime] as the interpreter of this module has it.  The module is
    Python 2 code (it tests against [basestring]), and the [strftime]
    methods of Python 2's [datetime] refuse a year before 1900 with a
    [ValueError]; from 1900 on the year has its four digits. *)
Definition strftime_refuses (d : date) : bool := (year d <? 1900)%nat.

Definition year_before_1900 : exn :=
  ValueError "year is before 1900; the datetime strftime() methods require year >= 1900".

(** [d.strftime('%Y.%m.%d')] *)
Definition strftime_date (d : date) : result string :=
  if strftime_refuses d then Raise year_before_1900 else Ok (date_text d).

(** [d.strftime('%Y.%m.%dD%H:%M:%S.%f000')] *)
Definition strftime_datetime (d : datetime) : result string :=
  if strftime_refuses (date_of d) then Raise year_before_1900
  else Ok (datetime_text d).

(** [pd.Timestamp(d) == pd.Timestamp(d.date())]: the time of day is
    exactly midnight. *)
Definition is_midnight (d : datetime) : bool :=
  (hour d =? 0)%nat && (minute d =? 0)%nat && (second d =? 0)%nat &&
  (microsecond d =? 0)%nat && (nanosecond d =? 0)%nat.

(** [into(q.Atom, d)] for a [datetime.date] *)
Definition into_date (d : date) : result q.Expr :=
  s <- strftime_date d ;;
  Ok (q.Atom s).

(** [into(q.Atom, d)] for a [datetime.datetime] *)
Definition into_datetime (d : datetime) : result q.Expr :=
  if is_midnight d then into_date (date_of d)
  else s <- strftime_datetime d ;;
       Ok (q.Atom s).

(** The host values [qify] is called on. *)
Inductive pyvalue : Type :=
| PyStr (s : string)
| PyDate (d : date)
| PyDatetime (d : datetime)
| PyNum (n : Z)
| PyExpr (e : blaze.Expr).

Section Qify.

(** [pd.Timestamp(x)] on a string: [None] stands for its [ValueError]. *)
Variable Timestamp : string -> option datetime.

(** [qify]: the [try] of the string case covers both the parse and the
    conversion, so a [ValueError] of either gives the symbol list; a date
    or a datetime is converted outside any [try]. *)
Definition qify (x : pyvalue) : result q.Expr :=
  match x with
  | PyExpr _ => Raise (AssertionError "input cannot be a blaze expression")
  | PyStr s =>
      match Timestamp s with
      | Some ts =>
          match into_datetime ts with
          | Ok atom => Ok atom
          | Raise (ValueError _) => Ok (q.List [q.Symbol s])
          | Raise e => Raise e
          end
      | None => Ok (q.List [q.Symbol s])
      end
  | PyDate d => into_date d
  | PyDatetime d => into_datetime d
  | PyNum n => Ok (q.Num n)
  end.

End Qify.

(** ** Fragments on which one substitution pass is final *)

(** The name [s] carries the scope [t] twice: [t.t.rest]. *)
Definition doubly_scoped (s t : string) : bool :=
  match split_dot s with
  | Some (hd, tl) =>
      (hd =? t)%string &&
      match split_dot tl with
      | Some (hd', _) => (hd' =? t)%string
      | None => false
      end
  | None => false
  end.

(** [settled called t f]: one pass at scope [t] is final on [f].  With
    [called = true] the fragment [f] is one that [desubs] is called on: the
    fragment itself, a member of a list or select that is an element of
    the loop of [_desubs], a key or a value of a dict that is such an
    element.  With [called = false] it is an element of that loop: an item
    of a list, a slot of a select or a key of a dict that [desubs] is
    called on.  No atom or symbol carries the scope twice; where [desubs]
    is called, a list does not have exactly one element and the keys of a
    dict are atoms or symbols (its values are not visited). *)
Fixpoint settled (called : bool) (t : string) (f : q.Expr) {struct f} : bool :=
  match f with
  | q.Atom s | q.Symbol s => negb (doubly_scoped s t)
  | q.Str _ | q.Num _ | q.Bool _ => true
  | q.List items =>
      (negb called || negb (length items =? 1)%nat)
      && forallb (settled (negb called) t) items
  | q.Dict items =>
      if called then
        forallb (fun kv => q.is_atom (fst kv) && settled false t (fst kv)) items
      else
        forallb (fun kv => settled true t (fst kv) && settled true t (snd kv)) items
  | q.select c cs g a =>
      settled (negb called) t c && settled (negb called) t cs
      && settled (negb called) t g && settled (negb called) t a
  end.

(** ** Further rules of the table

    Each rule takes the attributes of its node as arguments: [symbol],
    [lhs] and [rhs] of a [BinOp], [fields] of a [Projection], [attr] of a
    [DateTime]. *)

(** The table [qdatetimes]. *)
Definition qdatetimes : list (string * string) :=
  [("day", "dd"); ("month", "mm"); ("hour", "hh"); ("second", "ss")].

(** [d.get(key, default)] on a table of strings. *)
Fixpoint dict_get (d : list (string * string)) (key default : string) : string :=
  match d with
  | [] => default
  | (k, v) :: rest => if (k =? key)%string then v else dict_get rest key default
  end.

Definition is_Expr (x : pyvalue) : bool :=
  match x with
  | PyExpr _ => true
  | _ => false
  end.

Section MoreRules.

Variable compute : blaze.Expr -> q.Expr -> result q.Expr.
Variable getitem : q.Expr -> string -> result q.Expr.
Variable Timestamp : string -> option datetime.

(** The table [q.binops]. *)
Variable binops : string -> option (q.Expr -> q.Expr -> q.Expr).

(** Modelled from the spec: the values [q.select] gives to the slots its
    caller leaves out ([kdbpy/q.py] is not among the sources). *)
Variable default_constraints default_grouper default_aggregates : q.Expr.

(** [q.select(child, constraints=..., grouper=..., aggregates=...)] with
    any of the three keywords left out. *)
Definition q_select (child : q.Expr) (constraints grouper aggregates : option q.Expr)
    : q.Expr :=
  q.select child
    (match constraints with Some c => c | None => default_constraints end)
    (match grouper with Some g => g | None => default_grouper end)
    (match aggregates with Some a => a | None => default_aggregates end).

(** [compute_up] for [Projection].  The pairs are the items of the mapping
    when the field names are pairwise distinct; a name asked for twice is
    one key of the mapping. *)
Definition compute_up_Projection (fields : list string) (data : q.Expr) : q.Expr :=
  let fields := map q.Symbol fields in
  q_select data None None (Some (q.Dict (combine fields fields))).

(** [compute_up] for [BinOp] on two translated operands. *)
Definition compute_up_BinOp2 (symbol : string) (lhs rhs : q.Expr) : result q.Expr :=
  match binops symbol with
  | Some op => Ok (op lhs rhs)
  | None => Raise (KeyError symbol)
  end.

(** [compute_up] for [BinOp] on one translated operand: the other side is
    a host value and goes through [qify]. *)
Definition compute_up_BinOp (symbol : string) (lhs rhs : pyvalue) (data : q.Expr)
    : result q.Expr :=
  match binops symbol with
  | Some op =>
      if is_Expr lhs then
        r <- qify Timestamp rhs ;;
        Ok (op data r)
      else
        l <- qify Timestamp lhs ;;
        Ok (op l data)
  | None => Raise (KeyError symbol)
  end.

(** [compute_up] for [Selection]; [predicate] and [child] are
    [expr.predicate] and [expr._child], and the driver is called on the
    one-entry scope [{expr._child: data}]. *)
Variable compute_scope : blaze.Expr -> blaze.Expr -> q.Expr -> result q.Expr.

Definition compute_up_Selection (predicate child : blaze.Expr) (data : q.Expr)
    : result q.Expr :=
  p <- compute_scope predicate child data ;;
  Ok (q_select data (Some (q.List [q.List [p]])) None None).

(** [compute_up] for [DateTime]. *)
Definition compute_up_DateTime (attr : string) (data : q.Expr) : result q.Expr :=
  let attr := dict_get qdatetimes attr attr in
  getitem data attr.

(** [compute_up] for [Microsecond]. *)
Definition compute_up_Microsecond (data : q.Expr) : q.Expr :=
  q.floor (q.div (q.mod_ (q.long data) (q.Num 1000000000)) (q.Num 1000)).

End MoreRules.

(** Modelled from the spec: [qeval] extended to the two primitives of the
    [Microsecond] rule, the quotient of two integers and its floor, which
    together are the integer quotient rounded down. *)
Fixpoint qeval_floor_div (rho : q.Expr -> option value) (e : q.Expr) {struct e}
    : option value :=
  match e with
  | q.List [q.Atom op; a] =>
      if String.eqb op "floor" then qeval_floor_div rho a else qeval rho e
  | q.List [q.Atom op; a; b] =>
      if String.eqb op "div" then
        match qeval_floor_div rho a, qeval_floor_div rho b with
        | Some (VInt x), Some (VInt y) => if y =? 0 then None else Some (VInt (x / y))
        | _, _ => None
        end
      else qeval rho e
  | _ => qeval rho e
  end.

(** ** Reference points for the properties *)

(** The name has no dot. *)
Fixpoint dotless (s : string) : bool :=
  match s with
  | EmptyString => true
  | String c rest => negb (Ascii.eqb c "."%char) && dotless rest
  end.

(** [untouched called t f]: one pass at scope [t] has nothing to do on [f].
    No atom or symbol has [t] as its first dotted component; where [desubs]
    is called ([called = true], as for [settled]) there is no list of
    exactly one element and no dict, and among the elements its loop walks
    there is no select. *)
Fixpoint untouched (called : bool) (t : string) (f : q.Expr) {struct f} : bool :=
  match f with
  | q.Atom s | q.Symbol s =>
      match split_dot s with
      | Some (hd, _) => negb (hd =? t)%string
      | None => true
      end
  | q.Str _ | q.Num _ | q.Bool _ => true
  | q.List items =>
      (negb called || negb (length items =? 1)%nat)
      && forallb (untouched (negb called) t) items
  | q.Dict items =>
      negb called
      && forallb (fun kv => untouched true t (fst kv) && untouched true t (snd kv)) items
  | q.select c cs g a =>
      called && untouched false t c && untouched false t cs
      && untouched false t g && untouched false t a
  end.

(** Python's reading of a slice bound against a sequence of [r] items: a
    missing bound is [default], a negative one counts from the end, and
    the result is clamped to [0 .. r]. *)
Definition py_bound (default : Z) (x : option Z) (r : Z) : Z :=
  match x with
  | None => default
  | Some v => Z.max 0 (Z.min (if v <? 0 then v + r else v) r)
  end.

(** The positions Python's [seq[a:b]] selects from [r] items. *)
Definition py_slice_positions (a b : option Z) (r : Z) : list Z :=
  let start := py_bound 0 a r in
  let stop := py_bound r b r in
  map (Z.add start) (til_value (stop - start)).

Definition in_range (r : Z) (x : option Z) : bool :=
  match x with
  | None => true
  | Some v => (- r <=? v) && (v <=? r)
  end.

(** The ranges [datetime.date] and [datetime.datetime] keep their fields
    in. *)
Definition valid_date (d : date) : bool :=
  (1 <=? Z.of_nat (year d)) && (Z.of_nat (year d) <=? 9999) &&
  (1 <=? Z.of_nat (month d)) && (Z.of_nat (month d) <=? 12) &&
  (1 <=? Z.of_nat (day d)) && (Z.of_nat (day d) <=? 31).

Definition valid_datetime (d : datetime) : bool :=
  valid_date (date_of d) && (Z.of_nat (hour d) <=? 23) &&
  (Z.of_nat (minute d) <=? 59) && (Z.of_nat (second d) <=? 59) &&
  (Z.of_nat (microsecond d) <=? 999999).

(** The number a string of decimal digits denotes. *)
Fixpoint decimal_from (acc : nat) (s : string) : nat :=
  match s with
  | EmptyString => acc
  | String c rest => decimal_from (10 * acc + (nat_of_ascii c - 48)) rest
  end.

Definition decimal (s : string) : nat := decimal_from 0 s.


(** The years that both Python 2's [strftime] and a pandas [Timestamp] of
    64-bit nanoseconds hold, whatever the month and day. *)
Definition timestamp_years (d : date) : bool :=
  (1900 <=? year d)%nat && (year d <=? 2261)%nat.


(** [s] is the date literal of [d]: four, two and two characters that
    read as the year, the month and the day, with dots between. *)
Definition is_date_literal (s : string) (d : date) : Prop :=
  exists Y M D : string,
    s = Y ++ "." ++ M ++ "." ++ D /\
    String.length Y = 4%nat /\ String.length M = 2%nat /\ String.length D = 2%nat /\
    decimal Y = year d /\ decimal M = month d /\ decimal D = day d.

(** [s] is the datetime literal of [d]: the date literal, [D], the hour,
    minute and second in two characters each with colons between, a dot,
    the microsecond in six characters and three zeros. *)
Definition is_datetime_literal (s : string) (d : datetime) : Prop :=
  exists (date h m sec u : string),
    s = date ++ "D" ++ h ++ ":" ++ m ++ ":" ++ sec ++ "." ++ u ++ "000" /\
    is_date_literal date (date_of d) /\
    String.length h = 2%nat /\ String.length m = 2%nat /\
    String.length sec = 2%nat /\ String.length u = 6%nat /\
    decimal h = hour d /\ decimal m = minute d /\
    decimal sec = second d /\ decimal u = microsecond d.

(** ** A small instance of the external parts

    A driver and lookups concrete enough to run the rules: a leaf names a
    column of the table it is computed against, a row count goes through
    [compute_down], a reduction stands for a one-aggregate summary. *)

Definition example_fields (x : q.Expr) : list string :=
  match x with
  | q.Symbol _ => ["name"; "amount"]
  | q.select _ _ _ _ => ["child"; "constraints"; "by"; "aggregates"]
  | _ => []
  end.

Definition example_compute (expr : blaze.Expr) (data : q.Expr) : result q.Expr :=
  match expr with
  | blaze.Symbol name _ =>
      match data with
      | q.Symbol s => Ok (q.Symbol (s ++ "." ++ name))
      | _ => Raise TypeError
      end
  | blaze.nelements _ _ => compute_down example_fields expr data
  | blaze.Reduction symbol _ _ =>
      Ok (q.select data (q.List []) (q.Bool false)
            (q.Dict [(q.Symbol "total", q.List [q.Atom symbol; q.Symbol "t.amount"])]))
  | _ => Raise (NotImplementedError "Could not find signature for compute_up")
  end.

Definition example_name (expr : blaze.Expr) : string :=
  match expr with
  | blaze.Symbol name _ => name
  | _ => "expr"
  end.

Definition example_unops (symbol : string) : option (q.Expr -> q.Expr) :=
  if (symbol =? "sum")%string then Some (fun x => q.List [q.Atom "sum"; x])
  else None.

Definition example_getitem (x : q.Expr) (name : string) : result q.Expr :=
  match x with
  | q.Symbol s => Ok (q.Symbol (s ++ "." ++ name))
  | _ => Raise TypeError
  end.

Definition example_is_partitioned (x : q.Expr) : bool :=
  match x with
  | q.Symbol "trade" => true
  | _ => false
  end.

(** An environment for [qeval]: the table [t] has 3 rows, the table
    [trade] 10, and the minute field of [t.ts] holds the raw value 65. *)
Definition example_rho (e : q.Expr) : option value :=
  match e with
  | q.List [q.Atom "count"; q.Symbol "t"] => Some (VInt 3)
  | q.List [q.Atom "count"; q.Symbol "trade"] => Some (VInt 10)
  | q.Symbol "t.ts.minute" => Some (VInt 65)
  | _ => None
  end.

(** * Properties *)

(** ** Strings of fixed width *)

Lemma string_length_app (s1 s2 : string) :
  String.length (s1 ++ s2) = (String.length s1 + String.length s2)%nat.
Proof.
  induction s1 as [|c s1 IH]; simpl; [reflexivity | now rewrite IH].
Qed.

Lemma length_zpad (w n : nat) : String.length (zpad w n) = w.
Proof.
  revert n; induction w as [|w IH]; intro n; simpl.
  - reflexivity.
  - rewrite string_length_app, IH. simpl. lia.
Qed.

(** ** The integer meaning of the emitted arithmetic *)

Lemma qeval_and_ rho a b x y :
  qeval rho a = Some (VInt x) -> qeval rho b = Some (VInt y) ->
  qeval rho (q.and_ a b) = Some (VInt (Z.min x y)).
Proof.
  intros Ha Hb. unfold q.and_. simpl. rewrite Ha, Hb. reflexivity.
Qed.

Lemma qeval_add rho a b x y :
  qeval rho a = Some (VInt x) -> qeval rho b = Some (VInt y) ->
  qeval rho (q.add a b) = Some (VInt (x + y)).
Proof.
  intros Ha Hb. unfold q.add. simpl. rewrite Ha, Hb. reflexivity.
Qed.

Lemma qeval_long rho a : qeval rho (q.long a) = qeval rho a.
Proof. reflexivity. Qed.

Lemma qeval_mod_long rho a x n :
  qeval rho a = Some (VInt x) ->
  qeval rho (q.mod_ (q.long a) (q.Num n)) = Some (VInt (x mod n)).
Proof.
  intros Ha. unfold q.mod_.
  change (qeval rho (q.List [q.Atom "mod"; q.long a; q.Num n]))
    with (match qeval rho (q.long a), qeval rho (q.Num n) with
          | Some u, Some v => binop_value "mod" u v
          | _, _ => None
          end).
  rewrite qeval_long, Ha. reflexivity.
Qed.

(** [start + til (stop - start)] is the run of [stop - start] consecutive
    indices that begins at [start]. *)
Lemma qeval_range rho start stop s e :
  qeval rho start = Some (VInt s) -> qeval rho stop = Some (VInt e) ->
  s <= e ->
  qeval rho (q.add start (q.til (q.sub stop start)))
  = Some (VInts (map (Z.add s) (til_value (e - s)))).
Proof.
  intros Hs He Hle. unfold q.add, q.til, q.sub. simpl.
  rewrite Hs, He. simpl.
  destruct (e - s <? 0) eqn:E; [apply Z.ltb_lt in E; lia | reflexivity].
Qed.

Lemma length_til_value n : length (til_value n) = Z.to_nat n.
Proof. unfold til_value. now rewrite length_map, length_seq. Qed.

Lemma nth_range s n (i : nat) :
  (i < Z.to_nat n)%nat ->
  nth i (map (Z.add s) (til_value n)) 0 = s + Z.of_nat i.
Proof.
  intro Hi. unfold til_value.
  rewrite nth_indep with (d' := (Z.add s) (Z.of_nat 0%nat))
    by now rewrite !length_map, length_seq.
  rewrite map_nth, map_nth, seq_nth by assumption. reflexivity.
Qed.

(** ** The rules *)

Lemma axis_eqb_eq a b : axis_eqb a b = true <-> a = b.
Proof. unfold axis_eqb. destruct (list_eq_dec Z.eq_dec a b); split; congruence. Qed.

Lemma names_eqb_eq a b : names_eqb a b = true <-> a = b.
Proof. unfold names_eqb. destruct (list_eq_dec string_dec a b); split; congruence. Qed.

Lemma axis_eqb_neq a b : a <> b -> axis_eqb a b = false.
Proof. intro H. destruct (axis_eqb a b) eqn:E; [apply axis_eqb_eq in E; contradiction | reflexivity]. Qed.

Section RuleProperties.

Variable compute : blaze.Expr -> q.Expr -> result q.Expr.
Variable _name : blaze.Expr -> string.
Variable unops : string -> option (q.Expr -> q.Expr).
Variable getitem : q.Expr -> string -> result q.Expr.
Variable is_partitioned : q.Expr -> bool.
Variable fields : q.Expr -> list string.

Local Abbreviation up := (compute_up compute _name unops getitem is_partitioned).
Local Abbreviation down := (compute_down fields).

(** C1. Head(n) over a translated child: with [rowcount] the translation of
    the child's row count, the count handed to take is [n & rowcount],
    never the bare [n]; it evaluates to [min n r] when the row count
    evaluates to [r]; and a partitioned child gets partake over til of
    that clamped count, any other child the ordinary take. *)
Theorem head_takes_clamped_count (child : blaze.Expr) (n : Z) (data rowcount : q.Expr) :
  compute (blaze.nrows child) data = Ok rowcount ->
  let final_index := q.and_ (q.Num n) rowcount in
  up (blaze.Head child n) data =
    Ok (if is_partitioned data then q.partake data (q.til final_index)
        else q.take final_index data) /\
  final_index <> q.Num n /\
  forall rho r, qeval rho rowcount = Some (VInt r) ->
    qeval rho final_index = Some (VInt (Z.min n r)) /\
    (r < n -> qeval rho final_index <> qeval rho (q.Num n)).
Proof.
  intros Hrows final_index. split; [|split].
  - unfold compute_up, nrows. simpl. rewrite Hrows. simpl.
    destruct (is_partitioned data); reflexivity.
  - discriminate.
  - intros rho r Hr.
    assert (E : qeval rho final_index = Some (VInt (Z.min n r)))
      by (apply qeval_and_; [reflexivity | exact Hr]).
    split; [exact E|].
    intros Hlt. rewrite E. simpl. intro K. inversion K. lia.
Qed.

(** C5. Join: a kind other than inner, or differing column names on the
    two sides, raises at once (NotImplementedError, an
    UnsupportedOperation) and yields no translation; an inner join on the
    same names yields the [ej] list of the shared key symbols and the two
    translated operands, left then right. *)
Theorem join_inner_same_columns_only
    (l r : blaze.Expr) (on_left on_right : list string) (how : string)
    (lhs rhs : q.Expr) :
  (how <> "inner" \/ on_left <> on_right ->
     exists msg, compute_up2 (blaze.Join l r on_left on_right how) lhs rhs
                 = Raise (NotImplementedError msg)
                 /\ UnsupportedOperation (NotImplementedError msg)) /\
  (how = "inner" -> on_left = on_right ->
     compute_up2 (blaze.Join l r on_left on_right how) lhs rhs
     = Ok (q.List [q.Str "ej"; q.symlist on_left; lhs; rhs])).
Proof.
  split.
  - intros H. simpl.
    destruct (String.eqb how "inner") eqn:Ehow; simpl.
    + apply String.eqb_eq in Ehow.
      destruct H as [H | H]; [contradiction|].
      destruct (names_eqb on_left on_right) eqn:E; simpl.
      * apply names_eqb_eq in E. contradiction.
      * eexists; split; [reflexivity | exact I].
    + eexists; split; [reflexivity | exact I].
  - intros -> ->. simpl.
    destruct (names_eqb on_right on_right) eqn:E; simpl; [reflexivity|].
    assert (K : names_eqb on_right on_right = true) by now apply names_eqb_eq.
    congruence.
Qed.

(** C6. Minute: the translation is [(`long$data[attr]) mod 60] whatever the
    child expression and its dshape are; when the raw minute field
    evaluates to [m] the translation evaluates to [m mod 60], so a raw 65
    gives 5. *)
Theorem minute_is_raw_minute_mod_60
    (child : blaze.Expr) (attr : string) (data field : q.Expr) :
  getitem data attr = Ok field ->
  up (blaze.Minute child attr) data = Ok (q.mod_ (q.long field) (q.Num 60)) /\
  (forall child', up (blaze.Minute child' attr) data = up (blaze.Minute child attr) data) /\
  (forall rho m, qeval rho field = Some (VInt m) ->
     qeval rho (q.mod_ (q.long field) (q.Num 60)) = Some (VInt (m mod 60))) /\
  (forall rho, qeval rho field = Some (VInt 65) ->
     qeval rho (q.mod_ (q.long field) (q.Num 60)) = Some (VInt 5)).
Proof.
  intros Hget. split; [|split; [|split]].
  - simpl. rewrite Hget. reflexivity.
  - reflexivity.
  - intros rho m Hm. now apply qeval_mod_long.
  - intros rho Hm. now rewrite (qeval_mod_long _ _ 60 Hm).
Qed.

(** C7. A reduction or an element count over any axis but [(0,)] raises at
    once (ValueError, an UnsupportedOperation), whatever the driver and the
    tables hold; over [(0,)] the reduction is the entry of the unary
    operator table applied to the data, and the count is the count
    primitive, applied to the table symbol when the data is a named node
    with fields and to the data itself otherwise. *)
Theorem axis_must_be_leading
    (symbol : string) (child : blaze.Expr) (axis : list Z) (data : q.Expr) :
  (axis <> [0] ->
     (exists msg, up (blaze.Reduction symbol child axis) data = Raise (ValueError msg)
                  /\ UnsupportedOperation (ValueError msg)) /\
     (exists msg, down (blaze.nelements child axis) data = Raise (ValueError msg)
                  /\ UnsupportedOperation (ValueError msg))) /\
  (forall op, unops symbol = Some op ->
     up (blaze.Reduction symbol child [0]) data = Ok (op data)) /\
  (fields data = [] \/ q.is_select data = true ->
     down (blaze.nelements child [0]) data = Ok (q.count data)) /\
  (forall s, fields data <> [] -> q.is_select data = false -> attr_s data = Ok s ->
     down (blaze.nelements child [0]) data = Ok (q.count (q.Symbol s))) /\
  (forall r, down (blaze.nelements child [0]) data = Ok r -> exists x, r = q.count x).
Proof.
  split; [|split; [|split; [|split]]].
  - intros Hax. simpl. rewrite (axis_eqb_neq Hax). simpl.
    split; eexists; split; try reflexivity; exact I.
  - intros op Hop. simpl. rewrite Hop. reflexivity.
  - intros H. simpl. destruct H as [H | H].
    + rewrite H. reflexivity.
    + rewrite H. simpl. rewrite andb_false_r. reflexivity.
  - intros s Hf Hsel Hs. simpl. rewrite Hsel, Hs.
    destruct (fields data); [contradiction | reflexivity].
  - intros r. simpl.
    destruct (negb match fields data with [] => true | _ => false end
              && negb (q.is_select data)).
    + destruct (attr_s data); simpl; intro K; inversion K; eauto.
    + intro K; inversion K; eauto.
Qed.

(** C8. Slice: an index tuple with more than one entry raises at once
    (AssertionError, an UnsupportedOperation) without consulting the
    driver; a translation is produced only for a tuple of exactly one
    entry, an integer or a range, and it is [compute_slice] of that entry
    over the child's row count. *)
Theorem slice_single_dimension_only
    (child : blaze.Expr) (index : list blaze.index) (isrecord : bool) (data : q.Expr) :
  ((1 < length index)%nat ->
     up (blaze.Slice child index isrecord) data
     = Raise (AssertionError "only single slice allowed")
     /\ UnsupportedOperation (AssertionError "only single slice allowed")) /\
  (forall r, up (blaze.Slice child index isrecord) data = Ok r ->
     exists i rowcount,
       index = [i] /\ compute (blaze.nrows child) data = Ok rowcount /\
       r = compute_slice i data rowcount isrecord) /\
  (forall i rowcount, index = [i] -> compute (blaze.nrows child) data = Ok rowcount ->
     up (blaze.Slice child index isrecord) data
     = Ok (compute_slice i data rowcount isrecord)).
Proof.
  split; [|split].
  - intros Hlen. destruct index as [|i [|j rest]]; simpl in Hlen; try lia.
    split; [reflexivity | exact I].
  - intros r. destruct index as [|i [|j rest]]; simpl; try discriminate.
    unfold nrows; simpl.
    destruct (compute (blaze.nrows child) data) as [rowcount|e] eqn:E; simpl;
      [|discriminate].
    intro K; inversion K. exists i, rowcount. auto.
  - intros i rowcount -> Hrows. simpl. unfold nrows; simpl.
    rewrite Hrows. reflexivity.
Qed.

End RuleProperties.

(** ** Range slices *)

(** The bounds of a range slice after [compute_slice] has normalised
    them. *)
Lemma slice_start_negative (x : Z) (nrows : q.Expr) :
  x < 0 ->
  (let start := py_or (Some x) (PInt 0) in
   if lt0 start then PQ (q.add (as_q start) nrows) else start)
  = PQ (q.add (q.Num x) nrows).
Proof.
  intros Hx. simpl.
  destruct (x =? 0) eqn:E0; [apply Z.eqb_eq in E0; lia|].
  simpl. destruct (x <? 0) eqn:E; [reflexivity | apply Z.ltb_ge in E; lia].
Qed.

Lemma slice_start_kept (x : Z) (nrows : q.Expr) :
  0 <= x ->
  as_q (let start := py_or (Some x) (PInt 0) in
        if lt0 start then PQ (q.add (as_q start) nrows) else start)
  = q.Num x.
Proof.
  intros Hx. simpl.
  destruct (x =? 0) eqn:E0; [apply Z.eqb_eq in E0; subst; reflexivity|].
  simpl. destruct (x <? 0) eqn:E; [apply Z.ltb_lt in E; lia | reflexivity].
Qed.

Lemma slice_stop_negative (y : Z) (nrows : q.Expr) :
  y < 0 ->
  (let stop := py_or (Some y) (PQ nrows) in
   if lt0 stop then PQ (q.add (as_q stop) nrows) else stop)
  = PQ (q.add (q.Num y) nrows).
Proof.
  intros Hy. simpl.
  destruct (y =? 0) eqn:E0; [apply Z.eqb_eq in E0; lia|].
  simpl. destruct (y <? 0) eqn:E; [reflexivity | apply Z.ltb_ge in E; lia].
Qed.

Lemma slice_stop_kept (y : Z) (nrows : q.Expr) :
  0 < y ->
  (let stop := py_or (Some y) (PQ nrows) in
   if lt0 stop then PQ (q.add (as_q stop) nrows) else stop)
  = PInt y.
Proof.
  intros Hy. simpl.
  destruct (y =? 0) eqn:E0; [apply Z.eqb_eq in E0; lia|].
  simpl. destruct (y <? 0) eqn:E; [apply Z.ltb_lt in E; lia | reflexivity].
Qed.


(** C10. An explicit stop of 0 is translated exactly as a missing stop:
    the stop is the child's row count, so [expr[a:0]] runs from the start
    to the end of the table and is not the empty range whenever the start
    lies before the end; an explicit start of 0 is likewise translated
    exactly as a missing start. *)
Theorem zero_bound_is_missing_bound
    (a b step : option Z) (child nrows : q.Expr) (isrecord : bool) :
  compute_slice (blaze.slice a (Some 0) step) child nrows isrecord
  = compute_slice (blaze.slice a None step) child nrows isrecord /\
  compute_slice (blaze.slice (Some 0) b step) child nrows isrecord
  = compute_slice (blaze.slice None b step) child nrows isrecord /\
  exists start : q.Expr,
    compute_slice (blaze.slice a (Some 0) step) child nrows isrecord
    = q.List [q.Str "@"; child; q.add start (q.til (q.sub nrows start))] /\
    forall rho s r,
      qeval rho start = Some (VInt s) -> qeval rho nrows = Some (VInt r) -> s < r ->
      exists positions,
        qeval rho (q.add start (q.til (q.sub nrows start))) = Some (VInts positions) /\
        positions <> [] /\
        nth 0 positions 0 = s /\
        last positions 0 = r - 1.
Proof.
  split; [reflexivity|]. split; [reflexivity|].
  exists (as_q (let start := py_or a (PInt 0) in
                if lt0 start then PQ (q.add (as_q start) nrows) else start)).
  split; [reflexivity|].
  intros rho s r Hs Hr Hlt.
  exists (map (Z.add s) (til_value (r - s))).
  split; [apply qeval_range; [assumption | assumption | lia]|].
  assert (Hn : Z.to_nat (r - s) = S (Z.to_nat (r - s - 1))) by lia.
  split; [|split].
  - intro K. apply (f_equal (@length Z)) in K.
    rewrite length_map, length_til_value, Hn in K. discriminate.
  - rewrite nth_range by lia. simpl. lia.
  - unfold til_value. rewrite Hn, seq_S, !map_app. simpl.
    rewrite last_last. lia.
Qed.

(** ** Symbol substitution *)

(** The doctests of [get] and [desubs]. *)
Example get_doctest :
  get (q.List [q.Atom "="; q.Symbol "t.name"; q.Symbol "Alice"])
  = q.List [q.Atom "="; q.Symbol "t.name"; q.Symbol "Alice"] /\
  get (q.List [q.Symbol "t.name"]) = q.Symbol "t.name".
Proof. split; reflexivity. Qed.

Example desubs_doctest :
  desubs (q.Symbol "t.name") "t" = q.Symbol "name" /\
  desubs (q.List [q.Atom "first"; q.Symbol "t.name"]) "t"
  = q.List [q.Atom "first"; q.Symbol "name"].
Proof. split; reflexivity. Qed.

(** Induction over a q tree, through the items of its lists and the keys
    and values of its dicts. *)
Lemma Expr_nested_ind (P : q.Expr -> Prop) :
  (forall s, P (q.Atom s)) ->
  (forall s, P (q.Symbol s)) ->
  (forall s, P (q.Str s)) ->
  (forall n, P (q.Num n)) ->
  (forall b, P (q.Bool b)) ->
  (forall items, Forall P items -> P (q.List items)) ->
  (forall items, Forall (fun kv => P (fst kv) /\ P (snd kv)) items -> P (q.Dict items)) ->
  (forall c cs g a, P c -> P cs -> P g -> P a -> P (q.select c cs g a)) ->
  forall e, P e.
Proof.
  intros HA HS HStr HN HB HL HD HSel.
  fix IH 1. intros [s|s|s|n|b|items|items|c cs g a].
  - apply HA.
  - apply HS.
  - apply HStr.
  - apply HN.
  - apply HB.
  - apply HL. induction items as [|x rest IHrest]; constructor; [apply IH | exact IHrest].
  - apply HD. induction items as [|[k v] rest IHrest]; constructor;
      [split; apply IH | exact IHrest].
  - apply HSel; apply IH.
Qed.

Lemma desubs_atomic (e : q.Expr) (t : string) :
  q.is_atom e = true -> desubs e t = compute_atom e t.
Proof. intros H. destruct e; try discriminate; reflexivity. Qed.

Lemma desubs_List (items : list q.Expr) (t : string) :
  desubs (q.List items) t
  = get (q.List (map (yield_sube (fun s => desubs s t) t) items)).
Proof. reflexivity. Qed.

Lemma desubs_Dict (items : list (q.Expr * q.Expr)) (t : string) :
  desubs (q.Dict items) t
  = get (q.List (map (fun kv => yield_sube (fun s => desubs s t) t (fst kv)) items)).
Proof. reflexivity. Qed.

Lemma desubs_select (c cs g a : q.Expr) (t : string) :
  desubs (q.select c cs g a) t
  = q.select (yield_sube (fun s => desubs s t) t c)
             (yield_sube (fun s => desubs s t) t cs)
             (yield_sube (fun s => desubs s t) t g)
             (yield_sube (fun s => desubs s t) t a).
Proof. reflexivity. Qed.

Lemma compute_atom_is_atom (e : q.Expr) (t : string) :
  q.is_atom e = true -> q.is_atom (compute_atom e t) = true.
Proof.
  destruct e; simpl; try congruence; intros _;
    destruct (split_dot s) as [[hd tl]|]; try reflexivity;
    destruct (hd =? t)%string; reflexivity.
Qed.

Lemma yield_sube_not_select (rec : q.Expr -> q.Expr) (t : string) (e : q.Expr) :
  q.is_select (yield_sube rec t e) = false.
Proof.
  destruct e; simpl; try reflexivity;
    destruct (split_dot s) as [[hd tl]|]; try reflexivity;
    destruct (hd =? t)%string; reflexivity.
Qed.

(** A name that does not carry the scope twice is final after one pass. *)
Lemma compute_atom_twice (e : q.Expr) (t : string) :
  match e with
  | q.Atom s | q.Symbol s => doubly_scoped s t = false
  | _ => True
  end ->
  compute_atom (compute_atom e t) t = compute_atom e t.
Proof.
  destruct e; simpl; try reflexivity; unfold doubly_scoped;
    destruct (split_dot s) as [[hd tl]|] eqn:E; simpl; try (now rewrite E);
    destruct (hd =? t)%string eqn:Et; simpl; try (now rewrite E, Et);
    destruct (split_dot tl) as [[hd' tl']|] eqn:E'; simpl; try reflexivity;
    intros ->; reflexivity.
Qed.

Lemma get_List (items : list q.Expr) :
  length items <> 1%nat -> get (q.List items) = q.List items.
Proof. destruct items as [|x [|y rest]]; cbv [get len]; simpl; congruence. Qed.

Lemma yield_sube_atomic (rec : q.Expr -> q.Expr) (t : string) (e : q.Expr) :
  q.is_atom e = true -> yield_sube rec t e = compute_atom e t.
Proof. destruct e; simpl; congruence. Qed.

(** A run of atoms that one pass leaves alone is left alone as a whole,
    wrapped or unwrapped. *)
Lemma desubs_get_atoms (ks : list q.Expr) (t : string) :
  Forall (fun x => q.is_atom x = true /\ compute_atom x t = x) ks ->
  desubs (get (q.List ks)) t = get (q.List ks).
Proof.
  intros H.
  assert (Hmap : map (yield_sube (fun s => desubs s t) t) ks = ks).
  { induction H as [|x rest [Hx Hfix] _ IH]; simpl; [reflexivity|].
    rewrite IH. f_equal. now rewrite yield_sube_atomic. }
  destruct ks as [|x [|y rest]].
  - reflexivity.
  - simpl get. inversion H as [|? ? [Hx Hfix] _]; subst.
    now rewrite desubs_atomic.
  - rewrite get_List by (simpl; lia).
    rewrite desubs_List, Hmap. reflexivity.
Qed.

(** Both cases of an atom: a second pass finds nothing left to strip. *)
Ltac atom_settled Hs :=
  simpl in Hs; apply negb_true_iff in Hs;
  match goal with
  | |- desubs (desubs ?a ?t) ?t = _ =>
      rewrite (desubs_atomic a) by reflexivity;
      rewrite desubs_atomic by now apply compute_atom_is_atom
  | |- yield_sube ?r ?t (yield_sube ?r ?t ?a) = _ =>
      rewrite (yield_sube_atomic r t a) by reflexivity;
      rewrite yield_sube_atomic by now apply compute_atom_is_atom
  end;
  now apply compute_atom_twice.

Lemma settled_twice (t : string) (f : q.Expr) :
  (settled true t f = true -> desubs (desubs f t) t = desubs f t) /\
  (settled false t f = true ->
   yield_sube (fun s => desubs s t) t (yield_sube (fun s => desubs s t) t f)
   = yield_sube (fun s => desubs s t) t f).
Proof.
  induction f as [s|s|s|n|b|items IH|items IH|c cs g a IHc IHcs IHg IHa]
    using Expr_nested_ind.
  - split; intros Hs; atom_settled Hs.
  - split; intros Hs; atom_settled Hs.
  - split; reflexivity.
  - split; reflexivity.
  - split; reflexivity.
  - rewrite Forall_forall in IH. split; intros Hs; simpl in Hs.
    + apply andb_true_iff in Hs. destruct Hs as [Hlen Hall].
      apply negb_true_iff, Nat.eqb_neq in Hlen.
      rewrite forallb_forall in Hall.
      rewrite desubs_List.
      rewrite get_List by now rewrite length_map.
      rewrite desubs_List, map_map.
      rewrite get_List by now rewrite length_map.
      f_equal. apply map_ext_in. intros x Hx.
      now apply IH; [|apply Hall].
    + rewrite forallb_forall in Hs.
      simpl. rewrite map_map. f_equal. apply map_ext_in. intros x Hx.
      now apply IH; [|apply Hs].
  - rewrite Forall_forall in IH. split; intros Hs; simpl in Hs;
      rewrite forallb_forall in Hs.
    + rewrite desubs_Dict. apply desubs_get_atoms.
      apply Forall_forall. intros x Hx. apply in_map_iff in Hx.
      destruct Hx as [[k v] [<- Hin]]. simpl.
      specialize (Hs _ Hin). simpl in Hs.
      apply andb_true_iff in Hs. destruct Hs as [Hk Hsk].
      rewrite yield_sube_atomic by exact Hk.
      split; [now apply compute_atom_is_atom|].
      apply compute_atom_twice.
      destruct k; simpl in Hk; try discriminate;
        simpl in Hsk; now apply negb_true_iff in Hsk.
    + simpl. rewrite map_map. f_equal. apply map_ext_in. intros [k v] Hin. simpl.
      specialize (Hs _ Hin). simpl in Hs.
      apply andb_true_iff in Hs. destruct Hs as [Hk Hv].
      destruct (IH _ Hin) as [[IHk _] [IHv _]]. simpl in IHk, IHv.
      f_equal; [now apply IHk | now apply IHv].
  - split; intros Hs; simpl in Hs;
      apply andb_true_iff in Hs; destruct Hs as [Hs Ha];
      apply andb_true_iff in Hs; destruct Hs as [Hs Hg];
      apply andb_true_iff in Hs; destruct Hs as [Hc Hcs].
    + rewrite !desubs_select.
      f_equal; [now apply IHc | now apply IHcs | now apply IHg | now apply IHa].
    + simpl.
      rewrite (proj1 IHc Hc), (proj1 IHcs Hcs), (proj1 IHg Hg), (proj1 IHa Ha).
      reflexivity.
Qed.

(** One pass is not always final: the symbol [t.t.a] loses one prefix per
    pass, and a one-element list is unwrapped once more by each pass. *)
Example desubs_strips_one_prefix_per_pass :
  desubs (q.Symbol "t.t.a") "t" = q.Symbol "t.a" /\
  desubs (q.Symbol "t.a") "t" = q.Symbol "a".
Proof. split; reflexivity. Qed.

Example desubs_unwraps_once_per_pass :
  let f := q.List [q.List [q.List [q.Num 1; q.Num 2]]] in
  desubs f "t" = q.List [q.List [q.Num 1; q.Num 2]] /\
  desubs (desubs f "t") "t" = q.List [q.Num 1; q.Num 2].
Proof. split; reflexivity. Qed.

(** C3, as the claim states it, fails: on the symbol [t.t.a] the first pass
    leaves [t.a], which still has the dotted prefix [t], and the second
    pass changes it to [a]; and on a list nested in one-element lists the
    second pass unwraps one more level although no symbol is involved. *)
Lemma desubs_second_pass_differs :
  desubs (desubs (q.Symbol "t.t.a") "t") "t" <> desubs (q.Symbol "t.t.a") "t" /\
  desubs (desubs (q.List [q.List [q.List [q.Num 1; q.Num 2]]]) "t") "t"
  <> desubs (q.List [q.List [q.List [q.Num 1; q.Num 2]]]) "t".
Proof. split; vm_compute; discriminate. Qed.

(** C3, amended. The pass is idempotent on every fragment in which no atom
    or symbol carries the scope twice and in which nothing that [desubs]
    is called on (the fragment, the members of a list or select among the
    elements its loop walks, the keys and values of a dict among them) is
    a list of exactly one element or a dict with a key other than an atom
    or a symbol. *)
Theorem desubs_idempotent_on_settled (f : q.Expr) (s : string) :
  settled true s f = true ->
  desubs (desubs f s) s = desubs f s.
Proof. intro H. now apply settled_twice. Qed.

Lemma desubs_idempotent_on_settled_witness :
  let f := q.select (q.Symbol "t") (q.List [q.List []])
             (q.Dict [(q.Symbol "name", q.Symbol "t.name")])
             (q.Dict [(q.Symbol "total", q.List [q.Atom "sum"; q.Symbol "t.amount"])]) in
  settled true "t" f = true /\ desubs (desubs f "t") "t" = desubs f "t".
Proof.
  split; [reflexivity | apply desubs_idempotent_on_settled; reflexivity].
Defined.

(** ** Group-by over a select *)

Section GroupBy.

Variable compute : blaze.Expr -> q.Expr -> result q.Expr.
Variable _name : blaze.Expr -> string.
Variable unops : string -> option (q.Expr -> q.Expr).
Variable getitem : q.Expr -> string -> result q.Expr.
Variable is_partitioned : q.Expr -> bool.

Local Abbreviation up := (compute_up compute _name unops getitem is_partitioned).

Lemma by_rule_on_select
    (grouper apply : blaze.Expr) (child constraints by0 aggregates0 : q.Expr) :
  up (blaze.By grouper apply) (q.select child constraints by0 aggregates0)
  = (g <- compute grouper child ;;
     applied <- compute apply child ;;
     aggregates <- attr_aggregates applied ;;
     s <- attr_s child ;;
     Ok (desubs (q.select child (q.List [constraints])
                   (q.Dict [(q.Symbol (_name grouper), g)]) aggregates) s)).
Proof. reflexivity. Qed.

(** C2. Group-by over a child that is already a select: the rule takes the
    child and the constraints of that select, puts the constraints, the
    one-entry grouper and the aggregates of the translated apply into one
    new select over that same child, and returns [desubs] of it at the
    child's name.  Every translation it returns is therefore a select whose
    constraints slot is a non-empty list, whose grouper and aggregates
    slots are filled in that same node, and none of whose four slots is a
    select; and it does return one whenever the two sub-translations
    succeed, the apply translates to a select and the child has a name. *)
Theorem by_over_select_is_one_select
    (grouper apply : blaze.Expr) (child constraints by0 aggregates0 : q.Expr) :
  let data := q.select child constraints by0 aggregates0 in
  (forall r, up (blaze.By grouper apply) data = Ok r ->
     exists g applied aggregates s,
       compute grouper child = Ok g /\
       compute apply child = Ok applied /\
       attr_aggregates applied = Ok aggregates /\
       attr_s child = Ok s /\
       r = desubs (q.select child (q.List [constraints])
                     (q.Dict [(q.Symbol (_name grouper), g)]) aggregates) s /\
       exists c' cs' g' a',
         r = q.select c' (q.List [cs']) (q.Dict [g']) a' /\
         c' = compute_atom child s /\
         cs' = desubs constraints s /\
         g' = (compute_atom (q.Symbol (_name grouper)) s, desubs g s) /\
         a' = yield_sube (fun e => desubs e s) s aggregates /\
         q.is_select c' = false /\ q.is_select a' = false) /\
  (forall g applied aggregates s,
     compute grouper child = Ok g ->
     compute apply child = Ok applied ->
     attr_aggregates applied = Ok aggregates ->
     attr_s child = Ok s ->
     up (blaze.By grouper apply) data
     = Ok (desubs (q.select child (q.List [constraints])
                     (q.Dict [(q.Symbol (_name grouper), g)]) aggregates) s)).
Proof.
  intros data. split.
  - intros r. unfold data. rewrite by_rule_on_select. unfold bind.
    destruct (compute grouper child) as [g|e] eqn:Hg; [|discriminate].
    destruct (compute apply child) as [applied|e] eqn:Happ; [|discriminate].
    destruct (attr_aggregates applied) as [aggregates|e] eqn:Hagg; [|discriminate].
    destruct (attr_s child) as [s|e] eqn:Hs; [|discriminate].
    intros K.
    assert (Hr : r = desubs (q.select child (q.List [constraints])
                               (q.Dict [(q.Symbol (_name grouper), g)]) aggregates) s)
      by congruence.
    clear K. subst r.
    exists g, applied, aggregates, s.
    do 5 (split; [first [assumption | reflexivity]|]).
    assert (Hc : yield_sube (fun e => desubs e s) s child = compute_atom child s)
      by (apply yield_sube_atomic; destruct child; simpl in Hs; try discriminate; reflexivity).
    exists (compute_atom child s), (desubs constraints s),
           (compute_atom (q.Symbol (_name grouper)) s, desubs g s),
           (yield_sube (fun e => desubs e s) s aggregates).
    split; [rewrite desubs_select, Hc; reflexivity|].
    do 4 (split; [reflexivity|]). split.
    + rewrite <- Hc. apply yield_sube_not_select.
    + apply yield_sube_not_select.
  - intros g applied aggregates s Hg Happ Hagg Hs.
    unfold data. rewrite by_rule_on_select, Hg, Happ. simpl.
    rewrite Hagg, Hs. reflexivity.
Qed.

End GroupBy.

(** ** The theorems at work on the small instance *)

Lemma head_takes_clamped_count_witness :
  let t := blaze.Symbol "t" "var * {name: string, amount: int64}" in
  let final_index := q.and_ (q.Num 5) (q.count (q.Symbol "t")) in
  example_compute (blaze.nrows t) (q.Symbol "t") = Ok (q.count (q.Symbol "t")) /\
  compute_up example_compute example_name example_unops example_getitem
    example_is_partitioned (blaze.Head t 5) (q.Symbol "t")
  = Ok (q.take final_index (q.Symbol "t")) /\
  qeval example_rho final_index = Some (VInt 3).
Proof.
  intros t final_index.
  destruct (@head_takes_clamped_count example_compute example_name example_unops
              example_getitem example_is_partitioned t 5 (q.Symbol "t")
              (q.count (q.Symbol "t")) eq_refl) as (Hup & _ & Hval).
  split; [reflexivity|]. split; [exact Hup|].
  exact (proj1 (Hval example_rho 3 eq_refl)).
Defined.

Example head_of_partitioned_table :
  compute_up example_compute example_name example_unops example_getitem
    example_is_partitioned (blaze.Head (blaze.Symbol "trade" "var * {price: float64}") 20)
    (q.Symbol "trade")
  = Ok (q.partake (q.Symbol "trade")
          (q.til (q.and_ (q.Num 20) (q.count (q.Symbol "trade"))))).
Proof. reflexivity. Qed.

Lemma by_over_select_is_one_select_witness :
  let filtered :=
    q.select (q.Symbol "t")
      (q.List [q.List [q.List [q.Atom ">"; q.Symbol "t.amount"; q.Num 150]]])
      (q.Bool false) (q.List []) in
  compute_up example_compute example_name example_unops example_getitem
    example_is_partitioned
    (blaze.By (blaze.Symbol "name" "string")
              (blaze.Reduction "sum" (blaze.Symbol "amount" "int64") [0]))
    filtered
  = Ok (q.select (q.Symbol "t")
          (q.List [q.List [q.List [q.Atom ">"; q.Symbol "amount"; q.Num 150]]])
          (q.Dict [(q.Symbol "name", q.Symbol "name")])
          (q.Dict [(q.Symbol "total", q.List [q.Atom "sum"; q.Symbol "amount"])])).
Proof.
  intros filtered.
  exact (proj2 (@by_over_select_is_one_select example_compute example_name example_unops
                  example_getitem example_is_partitioned
                  (blaze.Symbol "name" "string")
                  (blaze.Reduction "sum" (blaze.Symbol "amount" "int64") [0])
                  (q.Symbol "t")
                  (q.List [q.List [q.List [q.Atom ">"; q.Symbol "t.amount"; q.Num 150]]])
                  (q.Bool false) (q.List []))
           (q.Symbol "t.name")
           (q.select (q.Symbol "t") (q.List []) (q.Bool false)
              (q.Dict [(q.Symbol "total", q.List [q.Atom "sum"; q.Symbol "t.amount"])]))
           (q.Dict [(q.Symbol "total", q.List [q.Atom "sum"; q.Symbol "t.amount"])])
           "t" eq_refl eq_refl eq_refl eq_refl).
Defined.


Lemma join_inner_same_columns_only_witness :
  let a := blaze.Symbol "a" "var * {id: int64, x: int64}" in
  let b := blaze.Symbol "b" "var * {id: int64, y: int64}" in
  compute_up2 (blaze.Join a b ["id"] ["id"] "inner") (q.Symbol "a") (q.Symbol "b")
  = Ok (q.List [q.Str "ej"; q.List [q.Symbol "id"]; q.Symbol "a"; q.Symbol "b"]) /\
  exists msg,
    compute_up2 (blaze.Join a b ["id"] ["key"] "inner") (q.Symbol "a") (q.Symbol "b")
    = Raise (NotImplementedError msg).
Proof.
  intros a b. split.
  - exact (proj2 (join_inner_same_columns_only a b ["id"] ["id"] "inner"
                    (q.Symbol "a") (q.Symbol "b")) eq_refl eq_refl).
  - destruct (proj1 (join_inner_same_columns_only a b ["id"] ["key"] "inner"
                       (q.Symbol "a") (q.Symbol "b")))
      as (msg & Hmsg & _).
    + right. discriminate.
    + exists msg. exact Hmsg.
Defined.

Lemma minute_is_raw_minute_mod_60_witness :
  let translated := q.mod_ (q.long (q.Symbol "t.ts.minute")) (q.Num 60) in
  compute_up example_compute example_name example_unops example_getitem
    example_is_partitioned (blaze.Minute (blaze.Symbol "ts" "datetime") "minute")
    (q.Symbol "t.ts")
  = Ok translated /\
  qeval example_rho translated = Some (VInt 5).
Proof.
  intros translated.
  destruct (@minute_is_raw_minute_mod_60 example_compute example_name example_unops
              example_getitem example_is_partitioned
              (blaze.Symbol "ts" "datetime") "minute" (q.Symbol "t.ts")
              (q.Symbol "t.ts.minute") eq_refl) as (Hup & _ & _ & H65).
  split; [exact Hup | exact (H65 example_rho eq_refl)].
Defined.

Lemma axis_must_be_leading_witness :
  let amount := blaze.Symbol "amount" "int64" in
  (exists msg,
     compute_up example_compute example_name example_unops example_getitem
       example_is_partitioned (blaze.Reduction "sum" amount [1]) (q.Symbol "t.amount")
     = Raise (ValueError msg)) /\
  compute_up example_compute example_name example_unops example_getitem
    example_is_partitioned (blaze.Reduction "sum" amount [0]) (q.Symbol "t.amount")
  = Ok (q.List [q.Atom "sum"; q.Symbol "t.amount"]) /\
  compute_down example_fields (blaze.nelements amount [0]) (q.Symbol "t")
  = Ok (q.count (q.Symbol "t")).
Proof.
  intros amount.
  destruct (@axis_must_be_leading example_compute example_name example_unops
              example_getitem example_is_partitioned example_fields
              "sum" amount [1] (q.Symbol "t.amount")) as (Hbad & _).
  destruct (@axis_must_be_leading example_compute example_name example_unops
              example_getitem example_is_partitioned example_fields
              "sum" amount [0] (q.Symbol "t.amount")) as (_ & Hred & _).
  destruct (@axis_must_be_leading example_compute example_name example_unops
              example_getitem example_is_partitioned example_fields
              "sum" amount [0] (q.Symbol "t")) as (_ & _ & _ & Hcount & _).
  split; [|split].
  - destruct Hbad as [(msg & Hmsg & _) _]; [discriminate|].
    exists msg. exact Hmsg.
  - exact (Hred _ eq_refl).
  - apply Hcount; [discriminate | reflexivity | reflexivity].
Defined.

Lemma slice_single_dimension_only_witness :
  let t := blaze.Symbol "t" "var * {name: string, amount: int64}" in
  compute_up example_compute example_name example_unops example_getitem
    example_is_partitioned
    (blaze.Slice t [blaze.Int 0; blaze.slice (Some 1) (Some 3) None] true) (q.Symbol "t")
  = Raise (AssertionError "only single slice allowed") /\
  compute_up example_compute example_name example_unops example_getitem
    example_is_partitioned
    (blaze.Slice t [blaze.slice (Some 1) (Some 3) None] true) (q.Symbol "t")
  = Ok (q.List [q.Str "@"; q.Symbol "t";
                q.add (q.Num 1) (q.til (q.sub (q.Num 3) (q.Num 1)))]).
Proof.
  intros t. split.
  - destruct (@slice_single_dimension_only example_compute example_name example_unops
                example_getitem example_is_partitioned t
                [blaze.Int 0; blaze.slice (Some 1) (Some 3) None] true (q.Symbol "t"))
      as (Hmany & _).
    apply Hmany. simpl. lia.
  - destruct (@slice_single_dimension_only example_compute example_name example_unops
                example_getitem example_is_partitioned t
                [blaze.slice (Some 1) (Some 3) None] true (q.Symbol "t"))
      as (_ & _ & Hone).
    exact (Hone _ (q.count (q.Symbol "t")) eq_refl eq_refl).
Defined.

Lemma zero_bound_is_missing_bound_witness :
  compute_slice (blaze.slice (Some 1) (Some 0) None) (q.Symbol "t")
    (q.count (q.Symbol "t")) true
  = q.List [q.Str "@"; q.Symbol "t";
            q.add (q.Num 1)
                  (q.til (q.sub (q.count (q.Symbol "t")) (q.Num 1)))] /\
  qeval example_rho
    (q.add (q.Num 1) (q.til (q.sub (q.count (q.Symbol "t")) (q.Num 1))))
  = Some (VInts [1; 2]).
Proof.
  destruct (zero_bound_is_missing_bound (Some 1) None None (q.Symbol "t")
              (q.count (q.Symbol "t")) true) as (Hstop & _ & _).
  split; [rewrite Hstop|]; reflexivity.
Defined.

(** * Further properties of the code *)

Unset Implicit Arguments.

(** ** Names and their first dotted component *)

Lemma split_dot_spec (s hd tl : string) :
  split_dot s = Some (hd, tl) -> s = hd ++ "." ++ tl /\ dotless hd = true.
Proof.
  revert hd tl. induction s as [|c s IH]; intros hd tl; simpl; [discriminate|].
  destruct (Ascii.eqb c ".") eqn:Ec.
  - apply Ascii.eqb_eq in Ec. subst c. intros K. inversion K. subst. split; reflexivity.
  - destruct (split_dot s) as [[hd' tl']|]; [|discriminate].
    intros K. inversion K. subst. destruct (IH hd' tl eq_refl) as [-> Hd].
    split; [reflexivity|]. simpl. now rewrite Ec, Hd.
Qed.

Lemma split_dot_app (t m : string) :
  dotless t = true -> split_dot (t ++ "." ++ m) = Some (t, m).
Proof.
  induction t as [|c t IH]; simpl in *; [reflexivity|].
  intros H. apply andb_true_iff in H. destruct H as [Hc Ht].
  apply negb_true_iff in Hc. now rewrite Hc, (IH Ht).
Qed.

Lemma split_dot_dotless (s : string) : dotless s = true -> split_dot s = None.
Proof.
  induction s as [|c s IH]; simpl; [reflexivity|].
  intros H. apply andb_true_iff in H. destruct H as [Hc Hs].
  apply negb_true_iff in Hc. now rewrite Hc, (IH Hs).
Qed.

Lemma string_eqb_prefix_false (hd tl : string) : (hd =? hd ++ "." ++ tl)%string = false.
Proof.
  apply String.eqb_neq. intros E. apply (f_equal String.length) in E.
  rewrite string_length_app in E. simpl in E. lia.
Qed.

(** X1. A name qualified by a dotless scope loses exactly that scope and
    its dot; whatever follows, dots included, is kept. *)
Theorem desubs_strips_the_scope (t m : string) :
  dotless t = true ->
  desubs (q.Symbol (t ++ "." ++ m)) t = q.Symbol m /\
  desubs (q.Atom (t ++ "." ++ m)) t = q.Atom m.
Proof.
  intros Ht. split.
  - rewrite desubs_atomic by reflexivity. unfold compute_atom.
    rewrite (@split_dot_app t m Ht), String.eqb_refl. reflexivity.
  - rewrite desubs_atomic by reflexivity. unfold compute_atom.
    rewrite (@split_dot_app t m Ht), String.eqb_refl. reflexivity.
Qed.

Lemma desubs_strips_the_scope_witness :
  desubs (q.Symbol "trade.px.last") "trade" = q.Symbol "px.last".
Proof. exact (proj1 (@desubs_strips_the_scope "trade" "px.last" eq_refl)). Defined.

(** X2. The only change a pass makes to a symbol is to remove the scope
    and one dot from the front of its name; a scope that itself contains a
    dot, and a name without a dot, never match. *)
Theorem desubs_symbol_only_loses_the_scope (s t : string) :
  exists s', desubs (q.Symbol s) t = q.Symbol s' /\
             (s' = s \/ (s = t ++ "." ++ s' /\ dotless t = true)) /\
             (dotless t = false -> s' = s) /\
             (dotless s = true -> s' = s).
Proof.
  rewrite desubs_atomic by reflexivity. simpl.
  destruct (split_dot s) as [[hd tl]|] eqn:E.
  - destruct (@split_dot_spec _ _ _ E) as [Hs Hhd].
    destruct (hd =? t)%string eqn:Et.
    + apply String.eqb_eq in Et. subst hd.
      exists tl. split; [reflexivity|]. split; [right; now split|]. split.
      * intros K. congruence.
      * intros K. rewrite (@split_dot_dotless _ K) in E. discriminate.
    + exists s. split; [reflexivity|]. split; [now left|]. split; reflexivity.
  - exists s. split; [reflexivity|]. split; [now left|]. split; reflexivity.
Qed.

Lemma desubs_symbol_only_loses_the_scope_witness :
  desubs (q.Symbol "db.t.name") "db.t" = q.Symbol "db.t.name".
Proof.
  destruct (desubs_symbol_only_loses_the_scope "db.t.name" "db.t")
    as (s' & Hd & _ & Hdot & _).
  rewrite Hd, (Hdot eq_refl). reflexivity.
Defined.

Lemma compute_atom_own_name (a : q.Expr) (s : string) :
  attr_s a = Ok s -> compute_atom a s = a.
Proof.
  intros Hs.
  destruct a as [n|n| | | | | |]; simpl in Hs; try discriminate;
    inversion Hs; subst n; simpl;
    destruct (split_dot s) as [[hd tl]|] eqn:E; try reflexivity;
    destruct (@split_dot_spec _ _ _ E) as [Hname _];
    rewrite Hname at 1; rewrite string_eqb_prefix_false; reflexivity.
Qed.

Lemma attr_s_is_atom (a : q.Expr) (s : string) : attr_s a = Ok s -> q.is_atom a = true.
Proof. destruct a; simpl; try discriminate; reflexivity. Qed.

(** X3. A pass scoped by the name of an atom or symbol never alters that
    atom or symbol itself: the table symbol of a select survives the
    substitution the [By] rule runs at [child.s]. *)
Theorem desubs_keeps_the_scope_symbol (a : q.Expr) (s : string) :
  attr_s a = Ok s -> desubs a s = a.
Proof.
  intros Hs. rewrite desubs_atomic by exact (attr_s_is_atom _ _ Hs).
  now apply compute_atom_own_name.
Qed.

Lemma desubs_keeps_the_scope_symbol_witness :
  desubs (q.Symbol "t.t") "t.t" = q.Symbol "t.t".
Proof. exact (@desubs_keeps_the_scope_symbol (q.Symbol "t.t") "t.t" eq_refl). Defined.

(** ** Fragments a pass leaves as they are *)

Lemma compute_atom_untouched (a : q.Expr) (t : string) :
  q.is_atom a = true -> untouched true t a = true -> compute_atom a t = a.
Proof.
  destruct a; simpl; try discriminate; intros _;
    destruct (split_dot s) as [[hd tl]|]; try reflexivity;
    intros H; apply negb_true_iff in H; now rewrite H.
Qed.

Lemma untouched_both (t : string) (f : q.Expr) :
  (untouched true t f = true -> desubs f t = f) /\
  (untouched false t f = true -> yield_sube (fun s => desubs s t) t f = f).
Proof.
  induction f as [s|s|s|n|b|items IH|items IH|c cs g a IHc IHcs IHg IHa]
    using Expr_nested_ind.
  - split; intros H.
    + rewrite desubs_atomic by reflexivity. now apply compute_atom_untouched.
    + rewrite yield_sube_atomic by reflexivity. now apply compute_atom_untouched.
  - split; intros H.
    + rewrite desubs_atomic by reflexivity. now apply compute_atom_untouched.
    + rewrite yield_sube_atomic by reflexivity. now apply compute_atom_untouched.
  - split; reflexivity.
  - split; reflexivity.
  - split; reflexivity.
  - rewrite Forall_forall in IH. split; intros H; simpl in H.
    + apply andb_true_iff in H. destruct H as [Hlen Hall].
      apply negb_true_iff, Nat.eqb_neq in Hlen.
      rewrite forallb_forall in Hall.
      rewrite desubs_List, get_List by now rewrite length_map.
      f_equal. rewrite <- (map_id items) at 2. apply map_ext_in.
      intros x Hx. now apply IH; [|apply Hall].
    + rewrite forallb_forall in H. simpl.
      f_equal. rewrite <- (map_id items) at 2. apply map_ext_in.
      intros x Hx. now apply IH; [|apply H].
  - rewrite Forall_forall in IH. split; intros H; simpl in H; [discriminate|].
    rewrite forallb_forall in H. simpl.
    f_equal. rewrite <- (map_id items) at 2. apply map_ext_in.
    intros [k v] Hin. specialize (H _ Hin). simpl in H.
    apply andb_true_iff in H. destruct H as [Hk Hv].
    destruct (IH _ Hin) as [[IHk _] [IHv _]]. simpl in IHk, IHv. simpl.
    now rewrite IHk, IHv.
  - split; intros H; simpl in H; [|discriminate].
    apply andb_true_iff in H. destruct H as [H Ha].
    apply andb_true_iff in H. destruct H as [H Hg].
    apply andb_true_iff in H. destruct H as [Hc Hcs].
    rewrite desubs_select.
    now rewrite (proj2 IHc Hc), (proj2 IHcs Hcs), (proj2 IHg Hg), (proj2 IHa Ha).
Qed.

(** X4. A pass returns the fragment it was given when no atom or symbol
    has the scope as first component, nothing it is called on is a dict or
    a one-element list, and no select sits among the elements it walks:
    apart from names under the scope, unwrapped single elements, dicts
    read as their keys and nested selects, [desubs] changes nothing. *)
Theorem desubs_identity_on_untouched (f : q.Expr) (t : string) :
  untouched true t f = true -> desubs f t = f.
Proof. intro H. now apply untouched_both. Qed.

Lemma desubs_identity_on_untouched_witness :
  let f := q.select (q.Symbol "t")
             (q.List [q.List [q.List [q.Atom ">"; q.Symbol "amount"; q.Num 150];
                              q.List [q.Atom "<"; q.Symbol "amount"; q.Num 900]]])
             (q.Dict [(q.Symbol "name", q.Symbol "u.name")])
             (q.Dict [(q.Symbol "total", q.List [q.Atom "sum"; q.Symbol "amount"])]) in
  desubs f "t" = f.
Proof. intros f. apply desubs_identity_on_untouched. reflexivity. Defined.

(** ** Group-by, row limits and slices against the driver *)

Section MoreRuleProperties.

Variable compute : blaze.Expr -> q.Expr -> result q.Expr.
Variable _name : blaze.Expr -> string.
Variable unops : string -> option (q.Expr -> q.Expr).
Variable getitem : q.Expr -> string -> result q.Expr.
Variable is_partitioned : q.Expr -> bool.
Variable fields : q.Expr -> list string.
Variable compute_scope : blaze.Expr -> blaze.Expr -> q.Expr -> result q.Expr.
Variable default_constraints default_grouper default_aggregates : q.Expr.

Local Abbreviation up := (compute_up compute _name unops getitem is_partitioned).
Local Abbreviation Selection :=
  (compute_up_Selection default_constraints default_grouper default_aggregates
     compute_scope).

Lemma by_rule_on_atom
    (grouper apply : blaze.Expr) (data : q.Expr) (s : string) :
  attr_s data = Ok s ->
  up (blaze.By grouper apply) data
  = (g <- compute grouper data ;;
     applied <- compute apply data ;;
     aggregates <- attr_aggregates applied ;;
     Ok (desubs (q.select data (q.List [q.List []])
                   (q.Dict [(q.Symbol (_name grouper), g)]) aggregates) s)).
Proof.
  intros Hs. destruct data; simpl in Hs; try discriminate; inversion Hs; subst;
    unfold compute_up, bind;
    destruct (compute grouper _); try reflexivity;
    destruct (compute apply _); try reflexivity;
    destruct (attr_aggregates _); reflexivity.
Qed.

(** X5. Group-by over a bare table symbol: the result is one select over
    that very symbol, its constraints slot is the list holding one empty
    clause list, the grouper is the single entry for the grouping
    expression and the aggregates are those of the translated apply, the
    last two with the table prefix removed. *)
Theorem by_over_table_symbol
    (grouper apply : blaze.Expr) (data g applied aggregates : q.Expr) (s : string) :
  attr_s data = Ok s ->
  compute grouper data = Ok g ->
  compute apply data = Ok applied ->
  attr_aggregates applied = Ok aggregates ->
  up (blaze.By grouper apply) data
  = Ok (q.select data (q.List [q.List []])
          (q.Dict [(desubs (q.Symbol (_name grouper)) s, desubs g s)])
          (yield_sube (fun e => desubs e s) s aggregates)).
Proof.
  intros Hs Hg Happ Hagg.
  rewrite (by_rule_on_atom _ _ _ _ Hs), Hg, Happ. cbn [bind]. rewrite Hagg. cbn [bind].
  rewrite desubs_select.
  rewrite (yield_sube_atomic _ _ data) by exact (attr_s_is_atom _ _ Hs).
  rewrite (compute_atom_own_name _ _ Hs). reflexivity.
Qed.

(** X6. Filter, then group-by: the select the [Selection] rule builds
    around the predicate is consumed by the [By] rule, and the result is
    one select over the table whose constraints slot is again a list of one
    clause list holding the predicate, now without the table prefix. *)
Theorem by_after_selection
    (predicate child grouper apply : blaze.Expr)
    (data p g applied aggregates : q.Expr) (s : string) :
  attr_s data = Ok s ->
  compute_scope predicate child data = Ok p ->
  compute grouper data = Ok g ->
  compute apply data = Ok applied ->
  attr_aggregates applied = Ok aggregates ->
  (filtered <- Selection predicate child data ;;
   up (blaze.By grouper apply) filtered)
  = Ok (q.select data (q.List [q.List [desubs p s]])
          (q.Dict [(desubs (q.Symbol (_name grouper)) s, desubs g s)])
          (yield_sube (fun e => desubs e s) s aggregates)).
Proof.
  intros Hs Hp Hg Happ Hagg.
  unfold compute_up_Selection. rewrite Hp. unfold q_select.
  cbn [bind]. rewrite by_rule_on_select, Hg, Happ. cbn [bind].
  rewrite Hagg, Hs. cbn [bind].
  rewrite desubs_select.
  rewrite (yield_sube_atomic _ _ data) by exact (attr_s_is_atom _ _ Hs).
  rewrite (compute_atom_own_name _ _ Hs). reflexivity.
Qed.

(** X7. When group-by over a select returns at all: exactly when the
    driver translates the grouper and the apply against the select's
    child, the apply comes back as a select, and that child is an atom or
    a symbol; and a failure of the grouper is raised whatever the apply
    would do. *)
Theorem by_returns_exactly_when
    (grouper apply : blaze.Expr) (child constraints by0 aggregates0 : q.Expr) :
  let data := q.select child constraints by0 aggregates0 in
  ((exists r, up (blaze.By grouper apply) data = Ok r) <->
   (exists g applied,
      compute grouper child = Ok g /\ compute apply child = Ok applied /\
      q.is_select applied = true /\ q.is_atom child = true)) /\
  (forall e, compute grouper child = Raise e ->
             up (blaze.By grouper apply) data = Raise e).
Proof.
  intros data. unfold data. split; [split|].
  - intros [r Hr]. rewrite by_rule_on_select in Hr. unfold bind in Hr.
    destruct (compute grouper child) as [g|e]; [|discriminate].
    destruct (compute apply child) as [applied|e]; [|discriminate].
    exists g, applied. split; [reflexivity|]. split; [reflexivity|].
    destruct applied; simpl in Hr; try discriminate.
    split; [reflexivity|].
    destruct child; simpl in Hr; try discriminate; reflexivity.
  - intros (g & applied & Hg & Happ & Hsel & Hatom).
    rewrite by_rule_on_select, Hg, Happ.
    destruct applied; simpl in Hsel; try discriminate.
    destruct child; simpl in Hatom; try discriminate; simpl; eauto.
  - intros e He. rewrite by_rule_on_select, He. reflexivity.
Qed.

(** X8. The row limit and the slice raise exactly what the translation of
    the row count raises, and return whenever it returns. *)
Theorem head_and_slice_follow_the_row_count
    (child : blaze.Expr) (n : Z) (i : blaze.index) (isrecord : bool) (data : q.Expr) :
  (forall e, up (blaze.Head child n) data = Raise e <->
             compute (blaze.nrows child) data = Raise e) /\
  (forall e, up (blaze.Slice child [i] isrecord) data = Raise e <->
             compute (blaze.nrows child) data = Raise e).
Proof.
  split; intros e; unfold compute_up, nrows; simpl;
    destruct (compute (blaze.nrows child) data) as [rowcount|e'] eqn:E; simpl.
  - destruct (is_partitioned data); split; discriminate.
  - split; intros K; exact K.
  - split; discriminate.
  - split; intros K; exact K.
Qed.

(** X9. With a driver that hands a row count to the [nelements] rule, the
    row limit over a select or over an atom or symbol always returns: the
    axis it asks for is the leading one, so the axis check cannot fire, and
    the count it clamps by is [count] of the data or of the symbol named
    like it. *)
Theorem head_over_table_always_returns
    (child : blaze.Expr) (n : Z) (data : q.Expr) :
  (forall c axis d,
      compute (blaze.nelements c axis) d = compute_down fields (blaze.nelements c axis) d) ->
  q.is_select data = true \/ q.is_atom data = true ->
  exists rowcount,
    up (blaze.Head child n) data
    = Ok (if is_partitioned data
          then q.partake data (q.til (q.and_ (q.Num n) rowcount))
          else q.take (q.and_ (q.Num n) rowcount) data) /\
    (rowcount = q.count data \/
     exists s, attr_s data = Ok s /\ rowcount = q.count (q.Symbol s)).
Proof.
  intros Hroute Hdata.
  assert (Hrows : exists rowcount,
             compute (blaze.nrows child) data = Ok rowcount /\
             (rowcount = q.count data \/
              exists s, attr_s data = Ok s /\ rowcount = q.count (q.Symbol s))).
  { unfold blaze.nrows. rewrite Hroute. simpl.
    destruct Hdata as [Hsel | Hatom].
    - rewrite Hsel, andb_false_r.
      exists (q.count data). split; [reflexivity | now left].
    - assert (Hns : q.is_select data = false) by (destruct data; try discriminate; reflexivity).
      rewrite Hns.
      destruct (fields data); simpl.
      + exists (q.count data). split; [reflexivity | now left].
      + destruct data as [nm|nm| | | | | |]; simpl in Hatom; try discriminate; simpl;
          exists (q.count (q.Symbol nm)); (split; [reflexivity|]);
          right; exists nm; split; reflexivity. }
  destruct Hrows as (rowcount & Hrc & Hform).
  exists rowcount. split; [|exact Hform].
  unfold compute_up, nrows. simpl. rewrite Hrc. simpl.
  destruct (is_partitioned data); reflexivity.
Qed.

End MoreRuleProperties.

(** ** Integer indices and ranges against Python's own reading *)

(** X10. An integer index: a non-negative index is used as it is and a
    negative one has the row count added; for a table of [r] rows and any
    index from [-r] to [r - 1] the position evaluates to [i mod r], a valid
    row.  Over a record dshape the indexing is wrapped in the one-element
    enlist, otherwise it is returned bare. *)
Theorem integer_index_is_normalised
    (i : Z) (child nrows : q.Expr) (isrecord : bool) :
  exists position,
    compute_slice (blaze.Int i) child nrows isrecord
    = (if isrecord then q.List [q.Str ",:"; q.List [child; position]]
       else q.List [child; position]) /\
    (0 <= i -> position = q.Num i) /\
    (i < 0 -> position = q.add (q.Num i) nrows) /\
    (forall rho r, qeval rho nrows = Some (VInt r) -> - r <= i < r ->
       qeval rho position = Some (VInt (i mod r)) /\ 0 <= i mod r < r).
Proof.
  exists (if i <? 0 then q.add (q.Num i) nrows else q.Num i).
  split; [destruct isrecord; reflexivity|].
  destruct (i <? 0) eqn:E.
  - apply Z.ltb_lt in E. split; [lia|]. split; [reflexivity|].
    intros rho r Hr Hi.
    assert (Hmod : i mod r = i + r).
    { symmetry. apply (Z.mod_unique i r (-1)); lia. }
    rewrite Hmod. split; [|lia].
    apply qeval_add; [reflexivity | exact Hr].
  - apply Z.ltb_ge in E. split; [reflexivity|]. split; [lia|].
    intros rho r Hr Hi. rewrite Z.mod_small by lia. split; [reflexivity | lia].
Qed.

Lemma integer_index_is_normalised_witness :
  qeval example_rho (q.add (q.Num (-1)) (q.count (q.Symbol "t"))) = Some (VInt 2).
Proof.
  destruct (integer_index_is_normalised (-1) (q.Symbol "t") (q.count (q.Symbol "t")) true)
    as (position & _ & _ & Hneg & Hval).
  rewrite <- (Hneg eq_refl).
  apply (Hval example_rho 3); [reflexivity | lia].
Defined.

Lemma py_or_start_value (a : option Z) (nrows : q.Expr) rho (r : Z) :
  qeval rho nrows = Some (VInt r) -> in_range r a = true ->
  qeval rho (as_q (let start := py_or a (PInt 0) in
                   if lt0 start then PQ (q.add (as_q start) nrows) else start))
  = Some (VInt (py_bound 0 a r)).
Proof.
  intros Hr Ha. destruct a as [x|]; [|reflexivity].
  simpl in Ha. apply andb_true_iff in Ha. destruct Ha as [Hlo Hhi].
  apply Z.leb_le in Hlo. apply Z.leb_le in Hhi.
  destruct (Z.ltb_spec x 0) as [E|E].
  - pose proof (slice_start_negative nrows E) as K. cbv zeta in K |- *. rewrite K.
    unfold py_bound. rewrite (proj2 (Z.ltb_lt x 0) E).
    replace (Z.max 0 (Z.min (x + r) r)) with (x + r) by lia.
    apply qeval_add; [reflexivity | exact Hr].
  - pose proof (slice_start_kept nrows E) as K. cbv zeta in K |- *. rewrite K.
    unfold py_bound. rewrite (proj2 (Z.ltb_ge x 0) E).
    replace (Z.max 0 (Z.min x r)) with x by lia. reflexivity.
Qed.

Lemma py_or_stop_value (b : option Z) (nrows : q.Expr) rho (r : Z) :
  qeval rho nrows = Some (VInt r) -> in_range r b = true -> b <> Some 0 -> 0 <= r ->
  qeval rho (as_q (let stop := py_or b (PQ nrows) in
                   if lt0 stop then PQ (q.add (as_q stop) nrows) else stop))
  = Some (VInt (py_bound r b r)).
Proof.
  intros Hr Hb Hnz Hpos. destruct b as [y|]; [|exact Hr].
  simpl in Hb. apply andb_true_iff in Hb. destruct Hb as [Hlo Hhi].
  apply Z.leb_le in Hlo. apply Z.leb_le in Hhi.
  assert (y <> 0) by congruence.
  destruct (Z.ltb_spec y 0) as [E|E].
  - pose proof (slice_stop_negative nrows E) as K. cbv zeta in K |- *. rewrite K.
    unfold py_bound. rewrite (proj2 (Z.ltb_lt y 0) E).
    replace (Z.max 0 (Z.min (y + r) r)) with (y + r) by lia.
    apply qeval_add; [reflexivity | exact Hr].
  - assert (Hy : 0 < y) by lia.
    pose proof (slice_stop_kept nrows Hy) as K. cbv zeta in K |- *. rewrite K.
    unfold py_bound. rewrite (proj2 (Z.ltb_ge y 0) E).
    replace (Z.max 0 (Z.min y r)) with y by lia. reflexivity.
Qed.

(** X11. A range slice whose bounds lie within [-r .. r], whose stop is not
    an explicit 0 and whose start does not lie after its stop selects
    exactly the rows Python's [seq[a:b]] selects from [r] items; the step
    of the slice plays no part, so a stepped slice selects every row of
    that range. *)
Theorem range_slice_selects_python_rows
    (a b step : option Z) (child nrows : q.Expr) (isrecord : bool)
    (rho : q.Expr -> option value) (r : Z) :
  qeval rho nrows = Some (VInt r) ->
  in_range r a = true -> in_range r b = true -> b <> Some 0 ->
  py_bound 0 a r <= py_bound r b r ->
  exists positions,
    compute_slice (blaze.slice a b step) child nrows isrecord
    = q.List [q.Str "@"; child; positions] /\
    qeval rho positions = Some (VInts (py_slice_positions a b r)).
Proof.
  intros Hr Ha Hb Hnz Hle.
  assert (Hpos : 0 <= r).
  { destruct a as [x|], b as [y|]; unfold py_bound in Hle; simpl in Ha, Hb;
      rewrite ?andb_true_iff, ?Z.leb_le in Ha, Hb; lia. }
  eexists. split; [reflexivity|].
  unfold py_slice_positions.
  apply qeval_range; [now apply py_or_start_value | now apply py_or_stop_value | exact Hle].
Qed.

Lemma range_slice_selects_python_rows_witness :
  exists positions,
    compute_slice (blaze.slice (Some (-2)) None (Some 2)) (q.Symbol "t")
      (q.count (q.Symbol "t")) true
    = q.List [q.Str "@"; q.Symbol "t"; positions] /\
    qeval example_rho positions = Some (VInts [1; 2]).
Proof.
  apply (range_slice_selects_python_rows (Some (-2)) None (Some 2) (q.Symbol "t")
           (q.count (q.Symbol "t")) true example_rho 3);
    [reflexivity | reflexivity | reflexivity | discriminate | vm_compute; discriminate].
Defined.

(** ** Date and datetime literals determine their value *)

Lemma decimal_from_app (acc : nat) (s1 s2 : string) :
  decimal_from acc (s1 ++ s2) = decimal_from (decimal_from acc s1) s2.
Proof. revert acc. induction s1 as [|c s1 IH]; intro acc; simpl; [reflexivity | apply IH]. Qed.

Lemma digit_value (n : nat) : (nat_of_ascii (digit n) - 48 = n mod 10)%nat.
Proof.
  unfold digit. rewrite nat_ascii_embedding.
  - lia.
  - pose proof (Nat.mod_upper_bound n 10). lia.
Qed.

Lemma decimal_from_zpad (w acc n : nat) :
  (decimal_from acc (zpad w n) = acc * 10 ^ w + n mod 10 ^ w)%nat.
Proof.
  revert acc n. induction w as [|w IH]; intros acc n.
  - cbn [zpad decimal_from]. rewrite Nat.pow_0_r, Nat.mod_1_r. lia.
  - cbn [zpad]. rewrite decimal_from_app, IH. cbn [decimal_from].
    rewrite digit_value.
    change (10 ^ S w)%nat with (10 * 10 ^ w)%nat.
    rewrite (Nat.Div0.mod_mul_r n 10 (10 ^ w)). lia.
Qed.

Lemma zpad_inj (w n m : nat) :
  (n < 10 ^ w)%nat -> (m < 10 ^ w)%nat -> zpad w n = zpad w m -> n = m.
Proof.
  intros Hn Hm E. apply (f_equal (decimal_from 0)) in E.
  rewrite !decimal_from_zpad, !Nat.mod_small in E by assumption. lia.
Qed.

Lemma string_app_inv (s1 s2 t1 t2 : string) :
  String.length s1 = String.length s2 -> (s1 ++ t1 = s2 ++ t2)%string ->
  s1 = s2 /\ t1 = t2.
Proof.
  revert s2. induction s1 as [|c s1 IH]; intros [|c2 s2]; simpl; try discriminate.
  - intros _ E. now split.
  - intros Hlen E. inversion E; subst. inversion Hlen as [Hl].
    destruct (IH _ Hl H1) as [-> ->]. now split.
Qed.

Lemma string_app_assoc (s1 s2 s3 : string) :
  ((s1 ++ s2) ++ s3 = s1 ++ s2 ++ s3)%string.
Proof. induction s1 as [|c s1 IH]; simpl; [reflexivity | now rewrite IH]. Qed.

Lemma zpad_app_inv (w n m : nat) (t1 t2 : string) :
  (n < 10 ^ w)%nat -> (m < 10 ^ w)%nat ->
  (zpad w n ++ t1 = zpad w m ++ t2)%string -> n = m /\ t1 = t2.
Proof.
  intros Hn Hm E.
  destruct (string_app_inv _ _ _ _ (eq_trans (length_zpad w n) (eq_sym (length_zpad w m))) E)
    as [Hz Ht].
  split; [now apply (zpad_inj w) | exact Ht].
Qed.

Lemma below_pow (w : nat) (n : nat) (bound : Z) :
  Z.of_nat n <= bound -> bound < 10 ^ Z.of_nat w -> (n < 10 ^ w)%nat.
Proof.
  intros Hn Hb. apply Nat2Z.inj_lt. rewrite Nat2Z.inj_pow. simpl Z.of_nat at 2. lia.
Qed.

Lemma valid_date_bounds (d : date) :
  valid_date d = true ->
  (year d < 10 ^ 4)%nat /\ (month d < 10 ^ 2)%nat /\ (day d < 10 ^ 2)%nat.
Proof.
  unfold valid_date. rewrite !andb_true_iff, !Z.leb_le.
  intros [[[[[_ Hy] _] Hm] _] Hd].
  repeat split; [apply (below_pow 4 _ 9999) | apply (below_pow 2 _ 12)
                 | apply (below_pow 2 _ 31)]; try assumption; reflexivity.
Qed.

Lemma date_text_app_inv (d d' : date) (t t' : string) :
  valid_date d = true -> valid_date d' = true ->
  (date_text d ++ t = date_text d' ++ t')%string -> d = d' /\ t = t'.
Proof.
  intros Hd Hd' E.
  destruct (valid_date_bounds d Hd) as (Hy & Hm & Hday).
  destruct (valid_date_bounds d' Hd') as (Hy' & Hm' & Hday').
  destruct d as [y m dd], d' as [y' m' dd']. unfold date_text in E.
  cbn [year month day] in *.
  rewrite !string_app_assoc in E.
  apply zpad_app_inv in E; [|assumption|assumption]. destruct E as [-> E].
  apply (string_app_inv "." "." _ _ eq_refl) in E. destruct E as [_ E].
  apply zpad_app_inv in E; [|assumption|assumption]. destruct E as [-> E].
  apply (string_app_inv "." "." _ _ eq_refl) in E. destruct E as [_ E].
  apply zpad_app_inv in E; [|assumption|assumption]. destruct E as [-> E].
  now split.
Qed.

Lemma strftime_date_Ok (d : date) (s : string) :
  strftime_date d = Ok s -> s = date_text d /\ (1900 <= year d)%nat.
Proof.
  unfold strftime_date, strftime_refuses.
  destruct (Nat.ltb_spec (year d) 1900); [discriminate|].
  intros K. inversion K. now split.
Qed.

Lemma strftime_datetime_Ok (d : datetime) (s : string) :
  strftime_datetime d = Ok s -> s = datetime_text d /\ (1900 <= year (date_of d))%nat.
Proof.
  unfold strftime_datetime, strftime_refuses.
  destruct (Nat.ltb_spec (year (date_of d)) 1900); [discriminate|].
  intros K. inversion K. now split.
Qed.

Lemma strftime_accepts (d : date) :
  (1900 <= year d)%nat -> strftime_refuses d = false.
Proof. intros H. unfold strftime_refuses. now apply Nat.ltb_ge. Qed.

(** X12. Two valid dates that [strftime] renders to the same date literal
    are the same date: the year, month and day can be read back from the
    ten characters.  (Years before 1900 are not rendered at all.) *)
Theorem strftime_date_determines_the_date (d d' : date) (s : string) :
  valid_date d = true -> valid_date d' = true ->
  strftime_date d = Ok s -> strftime_date d' = Ok s -> d = d'.
Proof.
  intros Hd Hd' E E'.
  apply strftime_date_Ok in E. apply strftime_date_Ok in E'.
  destruct E as [E _], E' as [E' _].
  destruct (date_text_app_inv d d' "" "" Hd Hd') as [H _]; [|exact H].
  now rewrite <- E, <- E'.
Qed.

Lemma strftime_date_determines_the_date_witness :
  valid_date (mkdate 2014 1 2) = true /\
  strftime_date (mkdate 2014 1 2) = Ok "2014.01.02" /\
  mkdate (2000 + 14) 1 2 = mkdate 2014 1 2.
Proof.
  split; [reflexivity|]. split; [reflexivity|].
  exact (strftime_date_determines_the_date (mkdate (2000 + 14) 1 2) (mkdate 2014 1 2)
           "2014.01.02" eq_refl eq_refl eq_refl eq_refl).
Defined.

Lemma valid_datetime_bounds (d : datetime) :
  valid_datetime d = true ->
  valid_date (date_of d) = true /\ (hour d < 10 ^ 2)%nat /\ (minute d < 10 ^ 2)%nat /\
  (second d < 10 ^ 2)%nat /\ (microsecond d < 10 ^ 6)%nat.
Proof.
  unfold valid_datetime. rewrite !andb_true_iff, !Z.leb_le.
  intros [[[[Hd Hh] Hm] Hs] Hu].
  split; [exact Hd|].
  repeat split; [apply (below_pow 2 _ 23) | apply (below_pow 2 _ 59)
                 | apply (below_pow 2 _ 59) | apply (below_pow 6 _ 999999)];
    try assumption; reflexivity.
Qed.

Lemma datetime_text_inv (d d' : datetime) :
  valid_datetime d = true -> valid_datetime d' = true ->
  datetime_text d = datetime_text d' ->
  date_of d = date_of d' /\ hour d = hour d' /\ minute d = minute d' /\
  second d = second d' /\ microsecond d = microsecond d'.
Proof.
  intros Hd Hd'.
  destruct (valid_datetime_bounds d Hd) as (Hdate & Hh & Hm & Hs & Hu).
  destruct (valid_datetime_bounds d' Hd') as (Hdate' & Hh' & Hm' & Hs' & Hu').
  unfold datetime_text. intros E.
  apply date_text_app_inv in E; [|assumption|assumption]. destruct E as [Edate E].
  apply (string_app_inv "D" "D" _ _ eq_refl) in E. destruct E as [_ E].
  apply zpad_app_inv in E; [|assumption|assumption]. destruct E as [Eh E].
  apply (string_app_inv ":" ":" _ _ eq_refl) in E. destruct E as [_ E].
  apply zpad_app_inv in E; [|assumption|assumption]. destruct E as [Em E].
  apply (string_app_inv ":" ":" _ _ eq_refl) in E. destruct E as [_ E].
  apply zpad_app_inv in E; [|assumption|assumption]. destruct E as [Es E].
  apply (string_app_inv "." "." _ _ eq_refl) in E. destruct E as [_ E].
  apply zpad_app_inv in E; [|assumption|assumption]. destruct E as [Eu _].
  repeat split; assumption.
Qed.

(** X13. Two valid datetimes from 1900 on are rendered by [strftime] to
    the same full datetime literal exactly when they agree on the date,
    hour, minute, second and microsecond: the literal fixes everything down
    to the microsecond, and the nanosecond is never written (the last three
    digits are always zeros). *)
Theorem strftime_datetime_determines_up_to_microsecond (d d' : datetime) :
  valid_datetime d = true -> valid_datetime d' = true ->
  (1900 <= year (date_of d))%nat -> (1900 <= year (date_of d'))%nat ->
  (strftime_datetime d = strftime_datetime d' <->
   date_of d = date_of d' /\ hour d = hour d' /\ minute d = minute d' /\
   second d = second d' /\ microsecond d = microsecond d').
Proof.
  intros Hd Hd' Hy Hy'. unfold strftime_datetime.
  rewrite (strftime_accepts _ Hy), (strftime_accepts _ Hy').
  split.
  - intros E. apply datetime_text_inv; try assumption. congruence.
  - intros (Edate & Eh & Em & Es & Eu). unfold datetime_text.
    now rewrite Edate, Eh, Em, Es, Eu.
Qed.

Lemma strftime_datetime_determines_up_to_microsecond_witness :
  strftime_datetime (mkdatetime (mkdate 2014 1 2) 13 5 9 250 0)
  = strftime_datetime (mkdatetime (mkdate 2014 1 2) 13 5 9 250 999) /\
  strftime_datetime (mkdatetime (mkdate 2014 1 2) 13 5 9 250 999)
  = Ok "2014.01.02D13:05:09.000250000".
Proof.
  split; [|reflexivity].
  apply (strftime_datetime_determines_up_to_microsecond
           (mkdatetime (mkdate 2014 1 2) 13 5 9 250 0)
           (mkdatetime (mkdate 2014 1 2) 13 5 9 250 999) eq_refl eq_refl);
    [simpl; lia | simpl; lia | repeat split].
Defined.

(** ** Literal coercion *)

Lemma decimal_zpad (w n : nat) : (n < 10 ^ w)%nat -> decimal (zpad w n) = n.
Proof.
  intros H. unfold decimal. rewrite decimal_from_zpad, Nat.mod_small by exact H. lia.
Qed.

Lemma date_text_is_literal (d : date) :
  valid_date d = true -> is_date_literal (date_text d) d.
Proof.
  intros Hd. destruct (valid_date_bounds d Hd) as (Hy & Hm & Hday).
  exists (zpad 4 (year d)), (zpad 2 (month d)), (zpad 2 (day d)).
  split; [reflexivity|].
  rewrite !length_zpad, !decimal_zpad by assumption. repeat split.
Qed.

Lemma datetime_text_is_literal (d : datetime) :
  valid_datetime d = true -> is_datetime_literal (datetime_text d) d.
Proof.
  intros Hd. destruct (valid_datetime_bounds d Hd) as (Hdate & Hh & Hm & Hs & Hu).
  exists (date_text (date_of d)), (zpad 2 (hour d)), (zpad 2 (minute d)),
         (zpad 2 (second d)), (zpad 6 (microsecond d)).
  split; [reflexivity|]. split; [now apply date_text_is_literal|].
  rewrite !length_zpad, !decimal_zpad by assumption. repeat split.
Qed.

Lemma length_date_text (d : date) : String.length (date_text d) = 10%nat.
Proof. unfold date_text. rewrite !string_length_app, !length_zpad. reflexivity. Qed.

Lemma length_datetime_text (d : datetime) : String.length (datetime_text d) = 29%nat.
Proof.
  unfold datetime_text.
  rewrite !string_length_app, length_date_text, !length_zpad. reflexivity.
Qed.

Lemma timestamp_years_accepted (d : date) :
  timestamp_years d = true -> strftime_refuses d = false.
Proof.
  unfold timestamp_years. rewrite andb_true_iff, Nat.leb_le.
  intros [H _]. now apply strftime_accepts.
Qed.

Lemma is_midnight_fields (d : datetime) :
  is_midnight d = true <->
  (hour d, minute d, second d, microsecond d, nanosecond d) = (0, 0, 0, 0, 0)%nat.
Proof.
  unfold is_midnight. rewrite !andb_true_iff, !Nat.eqb_eq. split.
  - intros [[[[-> ->] ->] ->] ->]. reflexivity.
  - intros K. inversion K. repeat split; reflexivity.
Qed.


Example qify_doctest_date :
  qify (fun _ => Some (mkdatetime (mkdate 2014 1 2) 0 0 0 0 0)) (PyStr "2014-01-02")
  = Ok (q.Atom "2014.01.02").
Proof. reflexivity. Qed.

Example qify_doctest_symbol :
  qify (fun _ => None) (PyStr "Alice") = Ok (q.List [q.Symbol "Alice"]).
Proof. reflexivity. Qed.

(** C9, as the claim states it, fails: a datetime at exactly midnight in
    the year 999 is not rendered as its fixed-width date literal.  The
    [strftime] of the module's interpreter refuses the year, and where a
    later interpreter accepts it the year comes out in three characters. *)
Lemma qify_midnight_of_999_is_not_its_date_literal :
  qify (fun _ => None) (PyDatetime (mkdatetime (mkdate 999 1 2) 0 0 0 0 0))
  <> Ok (q.Atom "0999.01.02").
Proof. vm_compute. discriminate. Qed.

(** C9, amended.  A string is first tried as a timestamp: when it does not
    parse it becomes the one-element symbol list, and when it parses to a
    year from 1900 on it is coerced as that datetime.  A valid datetime of
    the years 1900 to 2261 whose hour, minute, second, microsecond and
    nanosecond are all zero is rendered as the bare date literal, ten
    characters reading year.month.day; with any of the five non-zero it is
    rendered as the full datetime literal of 29 characters. *)
Theorem qify_literal_coercion_from_1900 (Timestamp : string -> option datetime) :
  (forall x : string,
      Timestamp x = None -> qify Timestamp (PyStr x) = Ok (q.List [q.Symbol x])) /\
  (forall (x : string) (ts : datetime),
      Timestamp x = Some ts -> (1900 <= year (date_of ts))%nat ->
      qify Timestamp (PyStr x) = qify Timestamp (PyDatetime ts)) /\
  (forall d : datetime,
      valid_datetime d = true -> timestamp_years (date_of d) = true ->
      (hour d, minute d, second d, microsecond d, nanosecond d) = (0, 0, 0, 0, 0)%nat ->
      exists s, qify Timestamp (PyDatetime d) = Ok (q.Atom s) /\
                is_date_literal s (date_of d) /\ String.length s = 10%nat) /\
  (forall d : datetime,
      valid_datetime d = true -> timestamp_years (date_of d) = true ->
      (hour d, minute d, second d, microsecond d, nanosecond d) <> (0, 0, 0, 0, 0)%nat ->
      exists s, qify Timestamp (PyDatetime d) = Ok (q.Atom s) /\
                is_datetime_literal s d /\ String.length s = 29%nat).
Proof.
  split; [|split; [|split]].
  - intros x Hx. simpl. now rewrite Hx.
  - intros x ts Hx Hy. simpl. rewrite Hx.
    unfold into_datetime, into_date, strftime_date, strftime_datetime.
    rewrite (strftime_accepts _ Hy). destruct (is_midnight ts); reflexivity.
  - intros d Hd Hyears Hzero.
    apply is_midnight_fields in Hzero.
    assert (Hdate : valid_date (date_of d) = true)
      by (unfold valid_datetime in Hd; rewrite !andb_true_iff in Hd; tauto).
    exists (date_text (date_of d)). split; [|split].
    + simpl. unfold into_datetime, into_date, strftime_date.
      now rewrite Hzero, (timestamp_years_accepted _ Hyears).
    + now apply date_text_is_literal.
    + apply length_date_text.
  - intros d Hd Hyears Hnonzero.
    assert (Hmid : is_midnight d = false).
    { destruct (is_midnight d) eqn:E; [|reflexivity].
      apply is_midnight_fields in E. contradiction. }
    exists (datetime_text d). split; [|split].
    + simpl. unfold into_datetime, strftime_datetime.
      now rewrite Hmid, (timestamp_years_accepted _ Hyears).
    + now apply datetime_text_is_literal.
    + apply length_datetime_text.
Qed.

Lemma qify_literal_coercion_from_1900_witness :
  let parse := fun x : string =>
    if (x =? "2014-01-02")%string then Some (mkdatetime (mkdate 2014 1 2) 0 0 0 0 0)
    else None in
  qify parse (PyStr "Alice") = Ok (q.List [q.Symbol "Alice"]) /\
  qify parse (PyStr "2014-01-02") = Ok (q.Atom "2014.01.02") /\
  (exists s, qify parse (PyDatetime (mkdatetime (mkdate 2014 1 2) 0 0 0 0 0)) = Ok (q.Atom s) /\
             is_date_literal s (mkdate 2014 1 2) /\ String.length s = 10%nat) /\
  (exists s, qify parse (PyDatetime (mkdatetime (mkdate 2014 1 2) 0 0 0 0 1)) = Ok (q.Atom s) /\
             is_datetime_literal s (mkdatetime (mkdate 2014 1 2) 0 0 0 0 1) /\
             String.length s = 29%nat).
Proof.
  intros parse.
  destruct (qify_literal_coercion_from_1900 parse) as (Hfail & Hparse & Hdate & Hfull).
  split; [exact (Hfail "Alice" eq_refl)|].
  split.
  - rewrite (Hparse "2014-01-02" (mkdatetime (mkdate 2014 1 2) 0 0 0 0 0) eq_refl).
    + reflexivity.
    + simpl. lia.
  - split.
    + exact (Hdate (mkdatetime (mkdate 2014 1 2) 0 0 0 0 0) eq_refl eq_refl eq_refl).
    + apply (Hfull (mkdatetime (mkdate 2014 1 2) 0 0 0 0 1) eq_refl eq_refl).
      discriminate.
Defined.

(** ** Operators with a literal side, field renaming, microseconds and
       projections *)




Section MoreOperators.

Variable Timestamp : string -> option datetime.
Variable binops : string -> option (q.Expr -> q.Expr -> q.Expr).

Local Abbreviation BinOp := (compute_up_BinOp Timestamp binops).


(** X15. A string that parses to a timestamp at exactly midnight and the
    date of that timestamp: from 1900 on they are the same literal to a
    binary operator, on either side, so comparing a column with
    ['2014-01-02'] and with the date 2014-01-02 give the same translation.
    Before 1900 they part: the refusal of [strftime] is caught for the
    string, which becomes the symbol list, and raised for the date. *)
Theorem binop_midnight_string_is_the_date
    (symbol x : string) (d : datetime) (other : pyvalue) (data : q.Expr) :
  Timestamp x = Some d -> is_midnight d = true ->
  ((1900 <= year (date_of d))%nat ->
     BinOp symbol other (PyStr x) data = BinOp symbol other (PyDate (date_of d)) data /\
     BinOp symbol (PyStr x) other data = BinOp symbol (PyDate (date_of d)) other data) /\
  ((year (date_of d) < 1900)%nat ->
     qify Timestamp (PyStr x) = Ok (q.List [q.Symbol x]) /\
     qify Timestamp (PyDate (date_of d)) = Raise year_before_1900).
Proof.
  intros Hx Hmid. split.
  - intros Hy.
    assert (E : qify Timestamp (PyStr x) = qify Timestamp (PyDate (date_of d))).
    { simpl. rewrite Hx. unfold into_datetime, into_date, strftime_date.
      now rewrite Hmid, (strftime_accepts _ Hy). }
    unfold compute_up_BinOp. destruct (binops symbol) as [op|]; [|split; reflexivity].
    split.
    + destruct (is_Expr other); [now rewrite E | reflexivity].
    + change (is_Expr (PyStr x)) with false. change (is_Expr (PyDate (date_of d))) with false.
      cbv iota. now rewrite E.
  - intros Hy.
    assert (Href : strftime_refuses (date_of d) = true)
      by (unfold strftime_refuses; now apply Nat.ltb_lt).
    split.
    + simpl. rewrite Hx. unfold into_datetime, into_date, strftime_date.
      now rewrite Hmid, Href.
    + simpl. unfold into_date, strftime_date. now rewrite Href.
Qed.

End MoreOperators.


Lemma binop_midnight_string_is_the_date_witness :
  let binops := fun symbol : string =>
    if (symbol =? "==")%string then Some (fun a b => q.List [q.Atom "="; a; b]) else None in
  let parse := fun _ : string => Some (mkdatetime (mkdate 2014 1 2) 0 0 0 0 0) in
  compute_up_BinOp parse binops "=="
    (PyExpr (blaze.Symbol "when" "datetime")) (PyStr "2014-01-02") (q.Symbol "t.when")
  = compute_up_BinOp parse binops "=="
      (PyExpr (blaze.Symbol "when" "datetime")) (PyDate (mkdate 2014 1 2)) (q.Symbol "t.when").
Proof.
  intros binops parse.
  destruct (binop_midnight_string_is_the_date parse binops "==" "2014-01-02"
              (mkdatetime (mkdate 2014 1 2) 0 0 0 0 0)
              (PyExpr (blaze.Symbol "when" "datetime")) (q.Symbol "t.when")
              eq_refl eq_refl) as (Hlate & _).
  apply Hlate. simpl. lia.
Defined.

Lemma dict_get_missing (d : list (string * string)) (key default : string) :
  (forall k v, In (k, v) d -> k <> key) -> dict_get d key default = default.
Proof.
  induction d as [|[k v] rest IH]; intros H; simpl; [reflexivity|].
  destruct (k =? key)%string eqn:E.
  - apply String.eqb_eq in E. exfalso. apply (H k v); [now left | exact E].
  - apply IH. intros k' v' Hin. apply (H k' v'). now right.
Qed.

Lemma qdatetimes_idempotent (attr : string) :
  dict_get qdatetimes (dict_get qdatetimes attr attr) (dict_get qdatetimes attr attr)
  = dict_get qdatetimes attr attr.
Proof.
  unfold qdatetimes. cbn [dict_get].
  destruct ("day" =? attr)%string eqn:E1; [reflexivity|].
  destruct ("month" =? attr)%string eqn:E2; [reflexivity|].
  destruct ("hour" =? attr)%string eqn:E3; [reflexivity|].
  destruct ("second" =? attr)%string eqn:E4; [reflexivity|].
  now rewrite E1, E2, E3, E4.
Qed.

(** X16. A datetime field is read under its q code: an attribute outside
    the rename table is read under its own name, and asking for a field by
    its code gives the same translation as asking by its name, since no
    code is itself renamed. *)
Theorem datetime_field_is_read_under_its_code
    (getitem : q.Expr -> string -> result q.Expr) (attr : string) (data : q.Expr) :
  compute_up_DateTime getitem attr data = getitem data (dict_get qdatetimes attr attr) /\
  compute_up_DateTime getitem (dict_get qdatetimes attr attr) data
  = compute_up_DateTime getitem attr data /\
  ((forall k v, In (k, v) qdatetimes -> k <> attr) ->
   compute_up_DateTime getitem attr data = getitem data attr).
Proof.
  unfold compute_up_DateTime. split; [reflexivity|]. split.
  - cbv zeta. now rewrite qdatetimes_idempotent.
  - intros H. cbv zeta. now rewrite dict_get_missing.
Qed.

Lemma datetime_field_is_read_under_its_code_witness :
  compute_up_DateTime example_getitem "year" (q.Symbol "t.ts") = Ok (q.Symbol "t.ts.year") /\
  compute_up_DateTime example_getitem "day" (q.Symbol "t.ts") = Ok (q.Symbol "t.ts.dd").
Proof.
  split.
  - destruct (datetime_field_is_read_under_its_code example_getitem "year" (q.Symbol "t.ts"))
      as (_ & _ & H).
    rewrite H; [reflexivity|].
    intros k v Hin. simpl in Hin.
    repeat (destruct Hin as [Hin|Hin]; [inversion Hin; discriminate|]). contradiction.
  - destruct (datetime_field_is_read_under_its_code example_getitem "day" (q.Symbol "t.ts"))
      as (H & _).
    rewrite H. reflexivity.
Defined.

(** X17. Microsecond: when the datetime evaluates to [n] nanoseconds, the
    translation evaluates to [(n mod 1000000000) / 1000], the microseconds
    within the second, a number from 0 to 999999. *)
Theorem microsecond_within_the_second
    (data : q.Expr) (rho : q.Expr -> option value) (n : Z) :
  qeval rho data = Some (VInt n) ->
  qeval_floor_div rho (compute_up_Microsecond data)
  = Some (VInt ((n mod 1000000000) / 1000)) /\
  0 <= (n mod 1000000000) / 1000 < 1000000.
Proof.
  intros Hn. split.
  - unfold compute_up_Microsecond, q.floor, q.div.
    change (qeval_floor_div rho
              (q.List [q.Atom "floor";
                       q.List [q.Atom "div"; q.mod_ (q.long data) (q.Num 1000000000);
                               q.Num 1000]]))
      with (match qeval rho (q.mod_ (q.long data) (q.Num 1000000000)),
                  qeval rho (q.Num 1000) with
            | Some (VInt x), Some (VInt y) => if y =? 0 then None else Some (VInt (x / y))
            | _, _ => None
            end).
    rewrite (qeval_mod_long rho data 1000000000 Hn). reflexivity.
  - pose proof (Z.mod_pos_bound n 1000000000 eq_refl) as Hb.
    split.
    + apply Z.div_pos; lia.
    + apply Z.div_lt_upper_bound; lia.
Qed.

Lemma microsecond_within_the_second_witness :
  qeval_floor_div (fun _ => Some (VInt 1388668800123456789))
    (compute_up_Microsecond (q.Symbol "t.ts"))
  = Some (VInt 123456).
Proof.
  exact (proj1 (microsecond_within_the_second (q.Symbol "t.ts")
                  (fun _ => Some (VInt 1388668800123456789)) 1388668800123456789 eq_refl)).
Defined.

Lemma combine_same {A : Type} (l : list A) :
  map fst (combine l l) = l /\ map snd (combine l l) = l.
Proof.
  induction l as [|x l [IH1 IH2]]; simpl; [now split|].
  now rewrite IH1, IH2.
Qed.

Lemma NoDup_map_Symbol (names : list string) :
  NoDup names -> NoDup (map q.Symbol names).
Proof.
  induction 1 as [|x l Hx Hl IH]; simpl; constructor; [|exact IH].
  intros Hin. apply in_map_iff in Hin. destruct Hin as (y & Hy & Hiny).
  inversion Hy. subst y. contradiction.
Qed.

(** X18. A projection of pairwise distinct field names is one select over
    the data whose aggregates map every requested field, in the order
    asked, to the symbol of the same name; the keys are pairwise distinct,
    and the other two slots are the ones [q.select] fills in itself. *)
Theorem projection_maps_each_field_to_itself
    (default_constraints default_grouper default_aggregates : q.Expr)
    (fields : list string) (data : q.Expr) :
  NoDup fields ->
  exists entries,
    compute_up_Projection default_constraints default_grouper default_aggregates fields data
    = q.select data default_constraints default_grouper (q.Dict entries) /\
    map fst entries = map q.Symbol fields /\
    map snd entries = map q.Symbol fields /\
    NoDup (map fst entries) /\
    length entries = length fields.
Proof.
  intros Hnodup.
  exists (combine (map q.Symbol fields) (map q.Symbol fields)).
  split; [reflexivity|].
  destruct (combine_same (map q.Symbol fields)) as [H1 H2].
  split; [exact H1|]. split; [exact H2|].
  split; [rewrite H1; now apply NoDup_map_Symbol|].
  rewrite <- (length_map fst), H1. apply length_map.
Qed.

Lemma projection_maps_each_field_to_itself_witness :
  exists entries,
    compute_up_Projection (q.List []) (q.Bool false) (q.List []) ["name"; "amount"]
      (q.Symbol "t")
    = q.select (q.Symbol "t") (q.List []) (q.Bool false) (q.Dict entries) /\
    map fst entries = [q.Symbol "name"; q.Symbol "amount"] /\
    map snd entries = [q.Symbol "name"; q.Symbol "amount"] /\
    NoDup (map fst entries) /\
    length entries = 2%nat.
Proof.
  apply (projection_maps_each_field_to_itself (q.List []) (q.Bool false) (q.List [])
           ["name"; "amount"] (q.Symbol "t")).
  repeat constructor; simpl; intuition discriminate.
Defined.

(** ** The further theorems at work on the small instance *)

Lemma by_over_table_symbol_witness :
  compute_up example_compute example_name example_unops example_getitem
    example_is_partitioned
    (blaze.By (blaze.Symbol "name" "string")
              (blaze.Reduction "sum" (blaze.Symbol "amount" "int64") [0]))
    (q.Symbol "t")
  = Ok (q.select (q.Symbol "t") (q.List [q.List []])
          (q.Dict [(q.Symbol "name", q.Symbol "name")])
          (q.Dict [(q.Symbol "total", q.List [q.Atom "sum"; q.Symbol "amount"])])).
Proof.
  exact (by_over_table_symbol example_compute example_name example_unops example_getitem
           example_is_partitioned
           (blaze.Symbol "name" "string")
           (blaze.Reduction "sum" (blaze.Symbol "amount" "int64") [0])
           (q.Symbol "t") (q.Symbol "t.name")
           (q.select (q.Symbol "t") (q.List []) (q.Bool false)
              (q.Dict [(q.Symbol "total", q.List [q.Atom "sum"; q.Symbol "t.amount"])]))
           (q.Dict [(q.Symbol "total", q.List [q.Atom "sum"; q.Symbol "t.amount"])])
           "t" eq_refl eq_refl eq_refl eq_refl).
Defined.

Lemma by_after_selection_witness :
  let predicate := fun (_ _ : blaze.Expr) (_ : q.Expr) =>
    Ok (q.List [q.Atom ">"; q.Symbol "t.amount"; q.Num 150]) in
  (filtered <- compute_up_Selection (q.List []) (q.Bool false) (q.List []) predicate
                 (blaze.Symbol "amount" "int64") (blaze.Symbol "t" "var * {}")
                 (q.Symbol "t") ;;
   compute_up example_compute example_name example_unops example_getitem
     example_is_partitioned
     (blaze.By (blaze.Symbol "name" "string")
               (blaze.Reduction "sum" (blaze.Symbol "amount" "int64") [0]))
     filtered)
  = Ok (q.select (q.Symbol "t")
          (q.List [q.List [q.List [q.Atom ">"; q.Symbol "amount"; q.Num 150]]])
          (q.Dict [(q.Symbol "name", q.Symbol "name")])
          (q.Dict [(q.Symbol "total", q.List [q.Atom "sum"; q.Symbol "amount"])])).
Proof.
  intros predicate.
  exact (by_after_selection example_compute example_name example_unops example_getitem
           example_is_partitioned predicate (q.List []) (q.Bool false) (q.List [])
           (blaze.Symbol "amount" "int64") (blaze.Symbol "t" "var * {}")
           (blaze.Symbol "name" "string")
           (blaze.Reduction "sum" (blaze.Symbol "amount" "int64") [0])
           (q.Symbol "t") (q.List [q.Atom ">"; q.Symbol "t.amount"; q.Num 150])
           (q.Symbol "t.name")
           (q.select (q.Symbol "t") (q.List []) (q.Bool false)
              (q.Dict [(q.Symbol "total", q.List [q.Atom "sum"; q.Symbol "t.amount"])]))
           (q.Dict [(q.Symbol "total", q.List [q.Atom "sum"; q.Symbol "t.amount"])])
           "t" eq_refl eq_refl eq_refl eq_refl eq_refl).
Defined.

Lemma by_returns_exactly_when_witness :
  (exists r,
     compute_up example_compute example_name example_unops example_getitem
       example_is_partitioned
       (blaze.By (blaze.Symbol "name" "string")
                 (blaze.Reduction "sum" (blaze.Symbol "amount" "int64") [0]))
       (q.select (q.Symbol "t") (q.List []) (q.Bool false) (q.List [])) = Ok r) /\
  compute_up example_compute example_name example_unops example_getitem
    example_is_partitioned
    (blaze.By (blaze.Symbol "name" "string")
              (blaze.Reduction "sum" (blaze.Symbol "amount" "int64") [0]))
    (q.select (q.List []) (q.List []) (q.Bool false) (q.List [])) = Raise TypeError.
Proof.
  split.
  - apply (proj1 (by_returns_exactly_when example_compute example_name example_unops
                    example_getitem example_is_partitioned
                    (blaze.Symbol "name" "string")
                    (blaze.Reduction "sum" (blaze.Symbol "amount" "int64") [0])
                    (q.Symbol "t") (q.List []) (q.Bool false) (q.List []))).
    do 2 eexists. repeat split; reflexivity.
  - apply (proj2 (by_returns_exactly_when example_compute example_name example_unops
                    example_getitem example_is_partitioned
                    (blaze.Symbol "name" "string")
                    (blaze.Reduction "sum" (blaze.Symbol "amount" "int64") [0])
                    (q.List []) (q.List []) (q.Bool false) (q.List []))).
    reflexivity.
Defined.

Lemma head_and_slice_follow_the_row_count_witness :
  let failing := fun (_ : blaze.Expr) (_ : q.Expr) => @Raise q.Expr (KeyError "t") in
  compute_up failing example_name example_unops example_getitem example_is_partitioned
    (blaze.Head (blaze.Symbol "t" "var * {}") 5) (q.Symbol "t") = Raise (KeyError "t").
Proof.
  intros failing.
  apply (proj1 (head_and_slice_follow_the_row_count failing example_name example_unops
                  example_getitem example_is_partitioned
                  (blaze.Symbol "t" "var * {}") 5 (blaze.Int 0) true (q.Symbol "t"))).
  reflexivity.
Defined.

Lemma head_over_table_always_returns_witness :
  exists rowcount,
    compute_up example_compute example_name example_unops example_getitem
      example_is_partitioned (blaze.Head (blaze.Symbol "t" "var * {}") 5) (q.Symbol "t")
    = Ok (q.take (q.and_ (q.Num 5) rowcount) (q.Symbol "t")) /\
    (rowcount = q.count (q.Symbol "t") \/
     exists s, attr_s (q.Symbol "t") = Ok s /\ rowcount = q.count (q.Symbol s)).
Proof.
  exact (head_over_table_always_returns example_compute example_name example_unops
           example_getitem example_is_partitioned example_fields
           (blaze.Symbol "t" "var * {}") 5 (q.Symbol "t")
           (fun c axis d => eq_refl) (or_intror eq_refl)).
Defined.
